(** * yt-downloader: download orchestration and progress tracking

    A shallow embedding of the orchestration core of the downloader
    (the yt-dlp based iteration: [sanitizeFilename], [getVideoInfo],
    [downloadVideoWithProgress], [downloadPlaylist]) and the properties
    its specification states about it.

    Conventions of the embedding:
    - a JavaScript string is the list of its UTF-16 code units, each a
      number in [N]; literals are written with [js];
    - the file system is a finite map from directory paths to the files
      they hold;
    - a subprocess is an opaque collaborator: what it prints, what it
      writes into the staging directory and how it terminates is a
      [ProcRun] handed to the handlers the source registers. *)

From Stdlib Require Import ZArith NArith QArith Lia Bool.
From Stdlib Require Import Strings.String Strings.Ascii.
From stdpp Require Import gmap list fin_maps strings.

Local Open Scope N_scope.
Local Open Scope list_scope.

(** ** JavaScript strings *)

Module JS.

Abbreviation jsstring := (list N).

(** A literal: the code units of an ASCII string. *)
Definition js (s : string) : jsstring :=
  map N_of_ascii (list_ascii_of_string s).

(** [\d] *)
Definition is_digit (c : N) : bool := (48 <=? c) && (c <=? 57).

(** ECMAScript LineTerminator: LF, CR, LS, PS. The regex [.] excludes them. *)
Definition is_line_terminator (c : N) : bool :=
  (c =? 10) || (c =? 13) || (c =? 8232) || (c =? 8233).

(** ECMAScript [\s] (WhiteSpace and LineTerminator); also the set that
    [String.prototype.trim] strips. *)
Definition is_space (c : N) : bool :=
  ((9 <=? c) && (c <=? 13)) || (c =? 32) || (c =? 160) || (c =? 5760)
  || ((8192 <=? c) && (c <=? 8202))
  || (c =? 8232) || (c =? 8233) || (c =? 8239) || (c =? 8287)
  || (c =? 12288) || (c =? 65279).

(** Case folding of the ASCII letters, for the [i] flag on ASCII patterns. *)
Definition to_lower (c : N) : N :=
  if (65 <=? c) && (c <=? 90) then c + 32 else c.

Definition eq_ci (a b : N) : bool := to_lower a =? to_lower b.

(** [s.trim()] *)
Fixpoint trim_start (s : jsstring) : jsstring :=
  match s with
  | c :: s' => if is_space c then trim_start s' else s
  | [] => []
  end.

Definition trim_end (s : jsstring) : jsstring := rev (trim_start (rev s)).

Definition trim (s : jsstring) : jsstring := trim_end (trim_start s).

(** [s.substring(0, n)] *)
Definition substring0 (n : nat) (s : jsstring) : jsstring := take n s.

(** [s.startsWith(p)] at the head of [s], with a comparison of code units. *)
Fixpoint starts_with_by (eqc : N -> N -> bool) (p s : jsstring) : bool :=
  match p, s with
  | [], _ => true
  | a :: p', b :: s' => eqc a b && starts_with_by eqc p' s'
  | _ :: _, [] => false
  end.

Definition starts_with := starts_with_by N.eqb.

(** [s.includes(p)] *)
Fixpoint includes (s p : jsstring) : bool :=
  starts_with p s ||
  match s with
  | [] => false
  | _ :: s' => includes s' p
  end.

(** [s.endsWith(p)] *)
Definition ends_with (s p : jsstring) : bool :=
  starts_with (rev p) (rev s).

(** [a || b] on strings: the empty string is falsy. *)
Definition or_else (a b : jsstring) : jsstring :=
  match a with [] => b | _ => a end.

(** [s.split(sep)] for a one-character separator: always at least one piece. *)
Fixpoint split_on (sep : N) (s : jsstring) : list jsstring :=
  match s with
  | [] => [[]]
  | c :: s' =>
      if c =? sep then [] :: split_on sep s'
      else match split_on sep s' with
           | piece :: pieces => (c :: piece) :: pieces
           | [] => [[c]]
           end
  end.

(** ** JavaScript numbers

    The numbers the orchestration handles are integers (positions,
    exit codes, clock readings): they are modelled in [Z], exact where
    JavaScript would round beyond 2^53, with [NaN] apart. *)
Inductive number : Type :=
  | NaN
  | Num (z : Z).

(** [x - 1] *)
Definition pred_number (x : number) : number :=
  match x with
  | NaN => NaN
  | Num z => Num (z - 1)
  end.

(** The value of a code unit as a digit in [radix], if it is one. *)
Definition digit_value (radix : N) (c : N) : option N :=
  let v := if is_digit c then Some (c - 48)
           else if (97 <=? c) && (c <=? 122) then Some (c - 87)
           else if (65 <=? c) && (c <=? 90) then Some (c - 55)
           else None in
  match v with
  | Some d => if d <? radix then Some d else None
  | None => None
  end.

(** The longest prefix of digits, read in [radix]; [acc] is [None] until
    a first digit has been read. *)
Fixpoint parse_digits (radix : N) (acc : option N) (s : jsstring) : option N :=
  match s with
  | [] => acc
  | c :: s' =>
      match digit_value radix c with
      | Some d => parse_digits radix (Some (radix * default 0 acc + d)) s'
      | None => acc
      end
  end.

(** [parseInt(s)] without a radix: leading white space is skipped, a
    sign is read, a [0x] or [0X] prefix selects radix 16, the longest
    prefix of digits is the value and anything after it is ignored; no
    digit at all is [NaN]. *)
Definition parseInt (s : jsstring) : number :=
  let s1 := trim_start s in
  let '(negative, s2) :=
    match s1 with
    | c :: t => if c =? 45 then (true, t)
                else if c =? 43 then (false, t)
                else (false, s1)
    | [] => (false, s1)
    end in
  let '(radix, s3) :=
    match s2 with
    | z :: x :: t =>
        if (z =? 48) && ((x =? 120) || (x =? 88)) then (16, t) else (10, s2)
    | _ => (10, s2)
    end in
  match parse_digits radix None s3 with
  | None => NaN
  | Some v => Num (if negative : bool then - Z.of_N v else Z.of_N v)
  end.

(** The decimal digits of [n], least significant first. *)
Fixpoint rev_digits (fuel : nat) (n : N) : jsstring :=
  match fuel with
  | O => []
  | S fuel' =>
      (48 + n mod 10) ::
      (if n / 10 =? 0 then [] else rev_digits fuel' (n / 10))
  end.

(** [n.toString()] for a non-negative integer. *)
Definition N_toString (n : N) : jsstring :=
  rev (rev_digits (S (N.to_nat (N.log2 n))) n).

(** [x.toString()], also what a template literal interpolates. *)
Definition number_toString (x : number) : jsstring :=
  match x with
  | NaN => js "NaN"
  | Num (Zneg p) => 45 :: N_toString (Npos p)
  | Num z => N_toString (Z.to_N z)
  end.

(** ** JavaScript arrays *)

(** ToIntegerOrInfinity on the numbers above. *)
Definition to_integer (x : number) : Z :=
  match x with
  | NaN => 0%Z
  | Num z => z
  end.

(** The relative-index rule of [slice]: a negative index counts from
    the end, and everything is clamped to [0, len]. *)
Definition clamp_index (len rel : Z) : Z :=
  if (rel <? 0)%Z then Z.max (len + rel) 0 else Z.min rel len.

(** [l.slice(start, end)]; an [end] that is [undefined] means the length. *)
Definition slice {A} (l : list A) (start : number) (end_ : option number)
    : list A :=
  let len := Z.of_nat (length l) in
  let k := clamp_index len (to_integer start) in
  let final :=
    match end_ with
    | None => len
    | Some e => clamp_index len (to_integer e)
    end in
  take (Z.to_nat (final - k)) (drop (Z.to_nat k) l).

(** [l[i]]: [undefined] off the array and at [NaN]. *)
Definition index {A} (l : list A) (i : number) : option A :=
  match i with
  | NaN => None
  | Num z => if (z <? 0)%Z then None else l !! Z.to_nat z
  end.

End JS.
Import JS.

(** ** Filename sanitizer *)

(** The class of characters that are illegal in file names: less-than,
    greater-than, colon, double quote, slash, backslash, bar, question
    mark, star. *)
Definition is_forbidden (c : N) : bool :=
  existsb (N.eqb c) [60; 62; 58; 34; 47; 92; 124; 63; 42].

(** [[\u0000-\u001f\u007f-\u009f]] *)
Definition is_control (c : N) : bool :=
  (c <=? 31) || ((127 <=? c) && (c <=? 159)).

(** [[^\x00-\x7F]] *)
Definition is_non_ascii (c : N) : bool := 127 <? c.

Definition underscore : N := 95.

(** [s.replace(/[class]/g, r)] for a one-character replacement. *)
Definition replace_class (p : N -> bool) (r : N) (s : jsstring) : jsstring :=
  map (fun c => if p c then r else c) s.

(** [s.replace(/[class]/g, '')] *)
Definition remove_class (p : N -> bool) (s : jsstring) : jsstring :=
  List.filter (fun c => negb (p c)) s.

(** [s.replace(/[class]+/g, r)]: every maximal run of the class becomes
    one [r]. [in_run] tells that the previous unit already belonged to
    the run being replaced. *)
Fixpoint replace_runs_from (p : N -> bool) (r : N) (in_run : bool)
    (s : jsstring) : jsstring :=
  match s with
  | [] => []
  | c :: s' =>
      if p c then
        if in_run then replace_runs_from p r true s'
        else r :: replace_runs_from p r true s'
      else c :: replace_runs_from p r false s'
  end.

Definition replace_runs (p : N -> bool) (r : N) (s : jsstring) : jsstring :=
  replace_runs_from p r false s.

(** The last unit is dropped when it satisfies [p] (the [_$] alternative). *)
Fixpoint drop_last_if (p : N -> bool) (s : jsstring) : jsstring :=
  match s with
  | [] => []
  | [c] => if p c then [] else [c]
  | c :: s' => c :: drop_last_if p s'
  end.

(** [s.replace(/^_|_$/g, '')]: the global scan removes an underscore at
    index 0, then resumes after it and removes one at the end of what is
    left. *)
Definition strip_edge_underscores (s : jsstring) : jsstring :=
  let s1 := match s with
            | c :: s' => if c =? underscore then s' else s
            | [] => []
            end in
  drop_last_if (N.eqb underscore) s1.

(** The chain of replacements of [sanitizeFilename], up to and including
    [substring(0, 150)]. *)
Definition sanitized_text (filename : jsstring) (asciiOnly : bool) : jsstring :=
  let result := remove_class is_control
                  (replace_class is_forbidden underscore filename) in
  let result := if asciiOnly then remove_class is_non_ascii result else result in
  substring0 150
    (trim
       (strip_edge_underscores
          (replace_runs (N.eqb underscore) underscore
             (replace_runs is_space underscore result)))).

(** [sanitizeFilename(filename, asciiOnly = false)]: the chain above,
    [|| 'download']. *)
Definition sanitizeFilename (filename : jsstring) (asciiOnly : bool) : jsstring :=
  or_else (sanitized_text filename asciiOnly) (js "download").

(** The older iteration of the tool keeps only the first replacement:
    the illegal characters become underscores and the result is cut with
    [substring(0, 200)]. *)
Definition sanitizeFilename_v1 (filename : jsstring) : jsstring :=
  substring0 200 (replace_class is_forbidden underscore filename).

(** A unit that may appear in a sanitized name. *)
Definition clean_unit (c : N) : Prop :=
  is_forbidden c = false /\ is_space c = false.

(** ** Playlist selection *)

(** An entry of a playlist, as [getPlaylistInfo] builds it. *)
Record PlaylistEntry : Type := {
  entry_title : jsstring;
  entry_url : jsstring;
  entry_duration : option number;
  entry_id : jsstring
}.

(** The [selectOption === 'range'] branch of [downloadPlaylist]:
    with a dash in the input,
      [[start, end] = rangeInput.split('-').map(n => parseInt(n.trim()))]
      [items.slice(start - 1, end)];
    otherwise
      [indices = rangeInput.split(',').map(n => parseInt(n.trim()) - 1)]
      [indices.map(i => items[i]).filter(Boolean)]. *)
Definition range_selection {A} (rangeInput : jsstring) (items : list A)
    : list A :=
  if includes rangeInput (js "-") then
    let parts := map (fun n => parseInt (trim n)) (split_on 45 rangeInput) in
    let start := default NaN (parts !! 0%nat) in
    let end_ := parts !! 1%nat in
    slice items (pred_number start) end_
  else
    let indices :=
      map (fun n => pred_number (parseInt (trim n))) (split_on 44 rangeInput) in
    omap (fun i => index items i) indices.

(** The entries at the given 1-indexed positions, in the order given;
    a position off the sequence contributes nothing. *)
Definition at_positions {A} (items : list A) (ps : list nat) : list A :=
  omap (fun p => match p with O => None | S i => items !! i end) ps.

(** The text of a comma-separated (or otherwise separated) list. *)
Fixpoint join_with (sep : N) (pieces : list jsstring) : jsstring :=
  match pieces with
  | [] => []
  | [p] => p
  | p :: rest => p ++ sep :: join_with sep rest
  end.

(** The decimal numeral of a position. *)
Definition numeral (n : nat) : jsstring := N_toString (N.of_nat n).

(** ** Pattern matching on process output

    The regular expressions of the source are embedded as matchers that
    consume a prefix of their input and return it with what is left. Each
    quantifier takes the longest run; for the patterns below the units a
    quantifier accepts cannot start what follows it, so giving units back
    never turns a failure into a success and the longest run is exactly
    what the backtracking matcher of JavaScript finds. The one pattern
    where giving back matters ([error_at]) spells it out. *)

Module Pattern.

Definition matcher : Type := jsstring -> option (jsstring * jsstring).

(** The longest prefix of [s] whose units satisfy [p], and the rest. *)
Fixpoint span (p : N -> bool) (s : jsstring) : jsstring * jsstring :=
  match s with
  | [] => ([], [])
  | c :: s' =>
      if p c then let '(taken, rest) := span p s' in (c :: taken, rest)
      else ([], s)
  end.

(** [[class]*] *)
Definition many (p : N -> bool) : matcher := fun s => Some (span p s).

(** [[class]+] *)
Definition many1 (p : N -> bool) : matcher := fun s =>
  match span p s with
  | ([], _) => None
  | found => Some found
  end.

(** [[class]?] *)
Definition optional (p : N -> bool) : matcher := fun s =>
  match s with
  | c :: s' => if p c then Some ([c], s') else Some ([], s)
  | [] => Some ([], s)
  end.

(** [[class]] *)
Definition one (p : N -> bool) : matcher := fun s =>
  match s with
  | c :: s' => if p c then Some ([c], s') else None
  | [] => None
  end.

(** Concatenation. *)
Definition then_ (m1 m2 : matcher) : matcher := fun s =>
  match m1 s with
  | Some (a, r) =>
      match m2 r with
      | Some (b, r') => Some (a ++ b, r')
      | None => None
      end
  | None => None
  end.

Infix ">>" := then_ (at level 61, left associativity).

(** The first index at which an anchored match succeeds, as
    [String.prototype.match] searches without the [g] flag. *)
Fixpoint find_first {B} (f : jsstring -> option B) (s : jsstring) : option B :=
  match f s with
  | Some r => Some r
  | None =>
      match s with
      | [] => None
      | _ :: s' => find_first f s'
      end
  end.

Definition is_unit (c : N) : N -> bool := N.eqb c.
Definition is_unit_ci (c : N) : N -> bool := eq_ci c.

End Pattern.
Import Pattern.

(** The percent pattern of [updateProgress], written here with blanks
    around its group: [/( \d+\.?\d* )%/]. This is its group 1 when the
    pattern matches at the head of [s]. *)
Definition percent_at (s : jsstring) : option jsstring :=
  match (many1 is_digit >> optional (is_unit 46) >> many is_digit) s with
  | Some (token, rest) => if starts_with (js "%") rest then Some token else None
  | None => None
  end.

(** [line.match] with the percent pattern, reduced to its group 1. *)
Definition match_percent (line : jsstring) : option jsstring :=
  find_first percent_at line.

(** [[KMG]] under the [i] flag. *)
Definition is_kmg (c : N) : bool :=
  eq_ci c 75 || eq_ci c 77 || eq_ci c 71.

(** The throughput pattern of [updateProgress], with blanks around its
    group: [/( \d+\.?\d*\s*[KMG]?i?B\/s )/i]. This is its group 1 when
    the pattern matches at the head of [s]. *)
Definition speed_at (s : jsstring) : option jsstring :=
  match (many1 is_digit >> optional (is_unit 46) >> many is_digit
         >> many is_space >> optional is_kmg >> optional (is_unit_ci 105)
         >> one (is_unit_ci 66) >> one (is_unit 47) >> one (is_unit_ci 115)) s with
  | Some (token, _) => Some token
  | None => None
  end.

(** [line.match] with the throughput pattern, reduced to its group 1. *)
Definition match_speed (line : jsstring) : option jsstring :=
  find_first speed_at line.

(** Group 1 of [/at\s+([^\s]+)/], the throughput pattern of the plain
    [downloadVideo] and [downloadVideoSimple] handlers. *)
Definition speed_after_at (s : jsstring) : option jsstring :=
  if starts_with (js "at") s then
    match many1 is_space (drop 2 s) with
    | Some (_, rest) =>
        match many1 (fun c => negb (is_space c)) rest with
        | Some (token, _) => Some token
        | None => None
        end
    | None => None
    end
  else None.

Definition match_speed_simple (line : jsstring) : option jsstring :=
  find_first speed_after_at line.

(** The error pattern, with a blank before its group:
    [/ERROR:\s* (.+)/i]. This is its group 1 when the pattern matches at
    the head of [s]. After the prefix, the starred white-space class
    takes the white space and [(.+)] the rest of the line.
    When the white space runs to the end of the text there is nothing
    left for [(.+)], and the matcher gives white space back one unit at
    a time until [.] accepts one: the capture is then the last unit of
    the run that is not a line terminator. *)
Definition error_at (s : jsstring) : option jsstring :=
  if starts_with_by eq_ci (js "ERROR:") s then
    let '(blank, rest) := span is_space (drop 6 s) in
    match fst (span (fun c => negb (is_line_terminator c)) rest) with
    | [] =>
        match List.filter (fun c => negb (is_line_terminator c)) blank with
        | [] => None
        | kept => match last kept with
                  | Some c => Some [c]
                  | None => None
                  end
        end
    | message => Some message
    end
  else None.

(** [errorOutput.match] with the error pattern, reduced to its group 1. *)
Definition match_error (errorOutput : jsstring) : option jsstring :=
  find_first error_at errorOutput.

(** ** Floating-point readings *)

(** A JavaScript number read by [parseFloat]: not-a-number, or a finite
    value, kept as the exact rational the decimal text denotes (the
    double is its rounding to nearest; the rounding is monotone and
    leaves 0, 42.5 and 100 fixed). *)
Inductive float : Type :=
  | FNaN
  | Fin (q : Q).

(** The value of a run of decimal digits. *)
Definition decimal_value (ds : jsstring) : N :=
  fold_left (fun v c => 10 * v + (c - 48)) ds 0.

(** 10 to the [k]. *)
Definition pow10 (k : nat) : positive :=
  Nat.iter k (Pos.mul 10%positive) 1%positive.

(** [parseFloat(s)] on decimal literals: leading white space is skipped,
    a sign is read, then digits, an optional point and digits; at least
    one digit is required, and anything after the literal is ignored.
    (Exponents and the [Infinity] literal, which the percent pattern
    cannot capture, are left out.) *)
Definition parseFloat (s : jsstring) : float :=
  let s1 := trim_start s in
  let '(negative, s2) :=
    match s1 with
    | c :: t => if c =? 45 then (true, t)
                else if c =? 43 then (false, t)
                else (false, s1)
    | [] => (false, s1)
    end in
  let '(whole, s3) := span is_digit s2 in
  let fraction :=
    match s3 with
    | c :: t => if c =? 46 then fst (span is_digit t) else []
    | [] => []
    end in
  match whole ++ fraction with
  | [] => FNaN
  | mantissa =>
      let q := Qmake (Z.of_N (decimal_value mantissa))
                     (pow10 (length fraction)) in
      Fin (if negative : bool then Qopp q else q)
  end.

(** ** Progress tracking *)

(** The status texts [updateProgress] and the close handler assign:
    Starting..., Downloading video..., Downloading audio..., Merging
    files..., Converting to MP3..., Cleaning up..., Complete! *)
Inductive Status : Type :=
  | Starting
  | DownloadingVideo
  | DownloadingAudio
  | Merging
  | Converting
  | CleaningUp
  | Complete.

(** What the handlers of one download hold while the subprocess runs:
    the variables [currentStatus], [progressStarted] and [errorOutput],
    and the progress bar's value and payload. *)
Record Progress : Type := {
  currentStatus : Status;
  progressStarted : bool;
  percent : float;
  throughput : jsstring;
  shownStatus : Status;
  errorOutput : jsstring
}.

(** Before any output: the bar is not started and shows nothing. *)
Definition initial_progress : Progress :=
  {| currentStatus := Starting; progressStarted := false;
     percent := Fin 0; throughput := []; shownStatus := Starting;
     errorOutput := [] |}.

(** The phase detection at the head of [updateProgress]. *)
Definition detect_status (line : jsstring) (current : Status) : Status :=
  if includes line (js "Downloading") && includes line (js "video")
  then DownloadingVideo
  else if includes line (js "Downloading") && includes line (js "audio")
  then DownloadingAudio
  else if includes line (js "Merging") then Merging
  else if includes line (js "Extracting audio") || includes line (js "Converting")
  then Converting
  else if includes line (js "Deleting original") then CleaningUp
  else current.

(** [updateProgress(line)]. [progressBar.start(100, 0, ...)] on the
    first match is immediately followed by [progressBar.update(percent,
    { speed, status })], whose value and payload are what remains. *)
Definition updateProgress (line : jsstring) (st : Progress) : Progress :=
  let status := detect_status line (currentStatus st) in
  let progressMatch := match_percent line in
  let speedMatch := match_speed line in
  match progressMatch with
  | Some token =>
      {| currentStatus := status;
         progressStarted := true;
         percent := parseFloat token;
         throughput := match speedMatch with
                       | Some speed => speed
                       | None => js "N/A"
                       end;
         shownStatus := status;
         errorOutput := errorOutput st |}
  | None =>
      {| currentStatus := status;
         progressStarted := progressStarted st;
         percent := percent st;
         throughput := throughput st;
         shownStatus := shownStatus st;
         errorOutput := errorOutput st |}
  end.

(** The [data] handlers of the plain [downloadVideo] and
    [downloadVideoSimple], which track no status: the same percent
    pattern, and the word after [at] as throughput. *)
Definition updateProgress_simple (line : jsstring) (st : Progress) : Progress :=
  match match_percent line with
  | Some token =>
      {| currentStatus := currentStatus st;
         progressStarted := true;
         percent := parseFloat token;
         throughput := match match_speed_simple line with
                       | Some speed => speed
                       | None => js "N/A"
                       end;
         shownStatus := shownStatus st;
         errorOutput := errorOutput st |}
  | None => st
  end.

(** The two output streams of a subprocess. *)
Inductive Stream : Type :=
  | Stdout
  | Stderr.

(** The [data] handlers: both streams feed [updateProgress], and the
    error stream is also accumulated in [errorOutput]. *)
Definition on_data (chunk : Stream * jsstring) (st : Progress) : Progress :=
  match chunk with
  | (Stdout, data) => updateProgress data st
  | (Stderr, data) =>
      updateProgress data
        {| currentStatus := currentStatus st;
           progressStarted := progressStarted st;
           percent := percent st;
           throughput := throughput st;
           shownStatus := shownStatus st;
           errorOutput := errorOutput st ++ data |}
  end.

(** The state of the handlers after the chunks of a whole run. *)
Definition consume (chunks : list (Stream * jsstring)) (st : Progress) : Progress :=
  fold_left (fun acc chunk => on_data chunk acc) chunks st.

(** The head of the close handler: a started bar is set to 100 and
    stopped. *)
Definition finish_bar (st : Progress) : Progress :=
  if progressStarted st then
    {| currentStatus := currentStatus st;
       progressStarted := true;
       percent := Fin 100;
       throughput := js "Done";
       shownStatus := Complete;
       errorOutput := errorOutput st |}
  else st.

(** A line holds a percent token when some digit is followed by a
    percent sign, directly or after a single point. *)
Definition has_percent_token (line : jsstring) : Prop :=
  exists before d after,
    line = before ++ d :: after
    /\ is_digit d = true
    /\ (starts_with (js "%") after = true \/ starts_with (js ".%") after = true).



(** The reading of the percent token of a line, when it has one. *)
Definition percent_reading (line : jsstring) : option float :=
  parseFloat <$> match_percent line.



(** ** File system

    A directory is the finite map of the files it holds (name to
    contents); the file system maps the path of every directory that
    exists to its files. Paths are strings joined with a slash; parent
    directories are not tracked as entries of their own, so removing a
    directory recursively removes every path below it. *)

Module FS.

Abbreviation path := (list N).
Abbreviation directory := (gmap (list N) (list N)).
Abbreviation filesystem := (gmap (list N) (gmap (list N) (list N))).

(** [path.join(dir, name)] on normalized components. *)
Definition path_join (dir name : path) : path := dir ++ 47 :: name.

(** [p] is [dir] or lies below it. *)
Definition within (dir p : path) : bool :=
  bool_decide (p = dir) || starts_with (dir ++ [47]) p.

(** [fs.existsSync(p)]: a directory, or a file of some directory. *)
Definition existsSync (fs : filesystem) (p : path) : bool :=
  bool_decide (is_Some (fs !! p))
  || existsb (fun '(dir, files) =>
                existsb (fun '(name, _) => bool_decide (path_join dir name = p))
                        (map_to_list files))
             (map_to_list fs).

(** [ensureDir(dir)]: [mkdirSync] when [existsSync] says no. *)
Definition ensureDir (dir : path) (fs : filesystem) : filesystem :=
  match fs !! dir with
  | Some _ => fs
  | None => <[dir := ∅]> fs
  end.

(** [fs.rmSync(dir, { recursive: true, force: true })] *)
Definition rmSync (dir : path) (fs : filesystem) : filesystem :=
  filter (fun entry => within dir entry.1 = false) fs.

(** [fs.readdirSync(dir)]; [None] when it throws. *)
Definition readdirSync (dir : path) (fs : filesystem) : option (list (list N)) :=
  match fs !! dir with
  | Some files => Some (map fst (map_to_list files))
  | None => None
  end.

(** [fs.copyFileSync(path.join(from, name), path.join(to, name))];
    [None] when it throws: no such file, or no directory to copy into. *)
Definition copyFileSync (from to name : path) (fs : filesystem)
    : option filesystem :=
  match fs !! from, fs !! to with
  | Some source, Some target =>
      match source !! name with
      | Some contents => Some (<[to := <[name := contents]> target]> fs)
      | None => None
      end
  | _, _ => None
  end.

End FS.
Import FS.

(** ** Subprocesses *)

(** How a subprocess ends: the [close] event with its exit code ([None]
    is the [null] of a process killed by a signal), or the [error] event
    of a process that could not be launched. *)
Inductive Ending : Type :=
  | Closed (code : option Z)
  | LaunchError (message : jsstring).

(** One run of the extractor, as the handlers see it: the chunks of its
    two streams in order of arrival, the files it left in the directory
    of its output template, and how it ended. *)
Record ProcRun : Type := {
  chunks : list (Stream * jsstring);
  written : gmap (list N) (list N);
  ending : Ending
}.

(** The text accumulated from one stream. *)
Definition stream_text (which : Stream) (run : ProcRun) : jsstring :=
  concat (omap (fun chunk : Stream * jsstring =>
                  match which, fst chunk with
                  | Stdout, Stdout | Stderr, Stderr => Some (snd chunk)
                  | _, _ => None
                  end) (chunks run)).

(** The files of a run appear in [dir], over files of the same name. *)
Definition write_into (dir : path) (files : gmap (list N) (list N))
    (fs : filesystem) : filesystem :=
  <[dir := files ∪ default ∅ (fs !! dir)]> fs.

(** The module-level variables of the tool. *)
Record Config : Type := {
  downloadDir : path;
  tempDir : path;
  cookiesFile : option jsstring
}.

(** [cookiesFile && fs.existsSync(cookiesFile)] followed by
    [args.push('--cookies', cookiesFile)]. *)
Definition cookie_args (cfg : Config) (fs : filesystem) : list jsstring :=
  match cookiesFile cfg with
  | Some file =>
      match file with
      | [] => []
      | _ => if existsSync fs file then [js "--cookies"; file] else []
      end
  | None => []
  end.

Inductive Format : Type :=
  | Audio
  | Video
  | Both.

Inductive Quality : Type :=
  | Highest
  | Lowest.

(** The options of [downloadVideoWithProgress]; an absent [outputDir]
    defaults to [downloadDir], an absent (or empty) [videoId] to the
    clock. *)
Record DownloadOptions : Type := {
  format : Format;
  quality : Quality;
  outputDir : option path;
  videoId : option jsstring
}.

(** [path.join(tempDir, videoId || Date.now().toString())] *)
Definition downloadTempDir (cfg : Config) (now : N) (opts : DownloadOptions)
    : path :=
  path_join (tempDir cfg)
            (or_else (default [] (videoId opts)) (N_toString now)).

Definition output_dir (cfg : Config) (opts : DownloadOptions) : path :=
  default (downloadDir cfg) (outputDir opts).

(** [format === 'audio' ? 'mp3' : 'mp4'] *)
Definition ext (fmt : Format) : jsstring :=
  match fmt with
  | Audio => js "mp3"
  | _ => js "mp4"
  end.

(** The format selection of the argument vector. *)
Definition format_args (fmt : Format) (q : Quality) : list jsstring :=
  match fmt with
  | Audio => [js "-x"; js "--audio-format"; js "mp3"; js "--audio-quality"; js "0"]
  | Video => [js "-f"; js "bestvideo[ext=mp4]/bestvideo";
              js "--merge-output-format"; js "mp4"]
  | Both =>
      [js "-f";
       match q with
       | Highest => js "bestvideo[ext=mp4]+bestaudio[ext=m4a]/best[ext=mp4]/best"
       | Lowest => js "worstvideo[ext=mp4]+worstaudio[ext=m4a]/worst[ext=mp4]/worst"
       end;
       js "--merge-output-format"; js "mp4"]
  end.

(** The file system once [downloadVideoWithProgress] has run
    [ensureDir(downloadTempDir)] and [ensureDir(outputDir)]. *)
Definition before_spawn (cfg : Config) (now : N) (opts : DownloadOptions)
    (fs : filesystem) : filesystem :=
  ensureDir (output_dir cfg opts) (ensureDir (downloadTempDir cfg now opts) fs).

(** The file system when the subprocess has ended and its handler runs. *)
Definition at_close (cfg : Config) (now : N) (opts : DownloadOptions)
    (fs : filesystem) (run : ProcRun) : filesystem :=
  write_into (downloadTempDir cfg now opts) (written run)
             (before_spawn cfg now opts fs).

(** The argument vector [downloadVideoWithProgress] builds: the output
    template (in double quotes) under the staging directory, the fixed
    flags, the cookies, the format selection, the URL. *)
Definition download_args (cfg : Config) (fs : filesystem) (now : N)
    (url : jsstring) (opts : DownloadOptions) : list jsstring :=
  let outputTemplate :=
    path_join (downloadTempDir cfg now opts) (js "%(title).100s.%(ext)s") in
  [js "--no-playlist"; js "-o"; 34 :: outputTemplate ++ [34];
   js "--restrict-filenames"; js "--newline"; js "--no-warnings"; js "--progress"]
  ++ cookie_args cfg fs
  ++ format_args (format opts) (quality opts)
  ++ [url].

(** The argument vector of [downloadVideoSimple], the playlist item
    download of the iteration without staging: it names the target
    directory itself and takes no cookies. *)
Definition download_args_simple (targetDir : path) (url : jsstring)
    (fmt : Format) (q : Quality) : list jsstring :=
  [js "--no-playlist"; js "-o";
   34 :: path_join targetDir (js "%(title).150s.%(ext)s") ++ [34];
   js "--restrict-filenames"; js "--progress"; js "--newline"; js "--no-warnings"]
  ++ match fmt with
     | Audio => [js "-x"; js "--audio-format"; js "mp3"; js "--audio-quality"; js "0"]
     | Video => [js "-f"; js "bestvideo[ext=mp4]/bestvideo"]
     | Both =>
         [js "-f";
          match q with
          | Highest => js "bestvideo[ext=mp4]+bestaudio[ext=m4a]/best[ext=mp4]/best"
          | Lowest => js "worstvideo[ext=mp4]+worstaudio[ext=m4a]/worst[ext=mp4]/worst"
          end]
     end
  ++ [url].

(** The text of an exit code in a template literal. *)
Definition code_text (code : option Z) : jsstring :=
  match code with
  | Some z => number_toString (Num z)
  | None => js "null"
  end.

(** ** Orchestration *)

(** The system the orchestration acts on: the world the subprocesses
    live in, the file system, and the argument vectors [spawn] has been
    called with so far, oldest first. *)
Record Sys (World : Type) : Type := {
  world : World;
  files : filesystem;
  spawned : list (list jsstring)
}.
Arguments world {World} _.
Arguments files {World} _.
Arguments spawned {World} _.

(** How a promise settles. *)
Inductive Settled (A : Type) : Type :=
  | Resolved (value : A)
  | Rejected (message : jsstring).
Arguments Resolved {A} _.
Arguments Rejected {A} _.

(** The promise resolved. *)
Definition succeeded {A} (r : Settled A) : bool :=
  match r with
  | Resolved _ => true
  | Rejected _ => false
  end.

(** The tally [downloadPlaylist] prints when the loop is over. *)
Record BatchResult : Type := {
  successful : nat;
  failed : nat;
  location : path
}.

Section Orchestration.

Context {World Info : Type}.

(** [spawn('yt-dlp', args, { shell: true })]: the run the world answers
    with, and the world after it. *)
Variable spawn : list jsstring -> World -> ProcRun * World.

(** [Date.now()] *)
Variable clock : World -> N.

(** [JSON.parse]; [None] when it throws. *)
Variable JSON_parse : jsstring -> option Info.

Definition run_process (args : list jsstring) (sys : Sys World)
    : ProcRun * Sys World :=
  let '(run, w) := spawn args (world sys) in
  (run, {| world := w; files := files sys; spawned := spawned sys ++ [args] |}).

(** One turn of the loop of [getVideoInfo]: the promise around one
    subprocess. *)
Definition fetch_attempt (args : list jsstring) (sys : Sys World)
    : Settled Info * Sys World :=
  let '(run, sys') := run_process args sys in
  let output := stream_text Stdout run in
  let errorOutput := stream_text Stderr run in
  (match ending run with
   | Closed code =>
       if bool_decide (code = Some 0%Z) && bool_decide (output <> []) then
         match JSON_parse output with
         | Some info => Resolved info
         | None => Rejected (js "Failed to parse video info")
         end
       else Rejected (or_else errorOutput (js "Failed to fetch video info"))
   | LaunchError message => Rejected message
   end, sys').

(** The loop over [attempts]: the first success is returned; a failure
    moves on to the next attempt when there is one ([i < attempts.length
    - 1]) and is thrown otherwise. [args] is the attempt in turn and
    [later] the ones after it. *)
Fixpoint attempt_in_turn (args : list jsstring) (later : list (list jsstring))
    (sys : Sys World) {struct later} : Settled Info * Sys World :=
  match fetch_attempt args sys with
  | (Resolved info, sys') => (Resolved info, sys')
  | (Rejected err, sys') =>
      match later with
      | [] => (Rejected err, sys')
      | next :: later' => attempt_in_turn next later' sys'
      end
  end.

(** The two attempts of [getVideoInfo]. *)
Definition video_info_attempts (cfg : Config) (fs : filesystem)
    (url : jsstring) : list jsstring * list jsstring :=
  let baseArgs := [js "--dump-json"; js "--no-playlist"] ++ cookie_args cfg fs in
  (baseArgs ++ [url],
   baseArgs ++ [js "--extractor-args"; js "youtube:player_client=tv"; url]).

(** [getVideoInfo(url)] *)
Definition getVideoInfo (cfg : Config) (url : jsstring) (sys : Sys World)
    : Settled Info * Sys World :=
  let '(first, second) := video_info_attempts cfg (files sys) url in
  attempt_in_turn first [second] sys.

(** The copy loop of the close handler; [false] when a copy threw, with
    the copies made before it left in place. *)
Fixpoint copy_targets (from to : path) (targetFiles : list path)
    (fs : filesystem) : filesystem * bool :=
  match targetFiles with
  | [] => (fs, true)
  | file :: rest =>
      match copyFileSync from to file fs with
      | Some fs' => copy_targets from to rest fs'
      | None => (fs, false)
      end
  end.

(** [files.filter(f => f.endsWith(`.${ext}`))] *)
Definition target_files (fmt : Format) (names : list path) : list path :=
  List.filter (fun f => ends_with f (46 :: ext fmt)) names.

(** The message of the error a failed download rejects with. *)
Definition failure_message (errorOutput : jsstring) (code : option Z)
    : jsstring :=
  match match_error errorOutput with
  | Some captured => trim captured
  | None =>
      js "Download failed with code " ++ code_text code
  end.

(** [downloadVideoWithProgress(url, options)]: what the promise settles
    to, the state of the progress handlers at the end, and the system
    afterwards. *)
Definition downloadVideoWithProgress (cfg : Config) (url : jsstring)
    (opts : DownloadOptions) (sys : Sys World)
    : Settled path * Progress * Sys World :=
  let now := clock (world sys) in
  let tmp := downloadTempDir cfg now opts in
  let out := output_dir cfg opts in
  let fs1 := before_spawn cfg now opts (files sys) in
  let args := download_args cfg fs1 now url opts in
  let '(run, sys1) :=
    run_process args
      {| world := world sys; files := fs1; spawned := spawned sys |} in
  let fs2 := at_close cfg now opts (files sys) run in
  let leave fs := {| world := world sys1; files := fs; spawned := spawned sys1 |} in
  let progress := consume (chunks run) initial_progress in
  match ending run with
  | Closed code =>
      if bool_decide (code = Some 0%Z) then
        match readdirSync tmp fs2 with
        | Some names =>
            match copy_targets tmp out (target_files (format opts) names) fs2 with
            | (fs3, true) =>
                (Resolved out, finish_bar progress, leave (rmSync tmp fs3))
            | (fs3, false) => (Resolved tmp, finish_bar progress, leave fs3)
            end
        | None => (Resolved tmp, finish_bar progress, leave fs2)
        end
      else
        (Rejected (failure_message (errorOutput progress) code),
         finish_bar progress, leave (rmSync tmp fs2))
  | LaunchError message =>
      (Rejected message, progress, leave (rmSync tmp fs2))
  end.

(** The call in the body of the loop of [downloadPlaylist]:
    [downloadVideoWithProgress(video.url, { format, quality, outputDir:
    playlistFolder, videoId: video.id })]. *)
Definition download_entry (cfg : Config) (fmt : Format) (q : Quality)
    (playlistFolder : path) (video : PlaylistEntry) (sys : Sys World)
    : Settled path * Progress * Sys World :=
  downloadVideoWithProgress cfg (entry_url video)
    {| format := fmt; quality := q;
       outputDir := Some playlistFolder;
       videoId := Some (entry_id video) |} sys.

(** The loop of [downloadPlaylist] over the selected videos: a resolved
    download counts in [successful], a rejected one is caught and counts
    in [failed]. *)
Fixpoint download_each (cfg : Config) (fmt : Format) (q : Quality)
    (playlistFolder : path) (selectedVideos : list PlaylistEntry)
    (successful failed : nat) (sys : Sys World) : nat * nat * Sys World :=
  match selectedVideos with
  | [] => (successful, failed, sys)
  | video :: rest =>
      match download_entry cfg fmt q playlistFolder video sys with
      | (Resolved _, _, sys') =>
          download_each cfg fmt q playlistFolder rest (S successful) failed sys'
      | (Rejected _, _, sys') =>
          download_each cfg fmt q playlistFolder rest successful (S failed) sys'
      end
  end.

(** The folder of a playlist and the system once it exists. *)
Definition playlist_folder (cfg : Config) (title : jsstring) : path :=
  path_join (downloadDir cfg) (sanitizeFilename title true).

Definition with_folder (cfg : Config) (title : jsstring) (sys : Sys World)
    : Sys World :=
  {| world := world sys;
     files := ensureDir (playlist_folder cfg title) (files sys);
     spawned := spawned sys |}.

(** [downloadPlaylist] from the creation of the playlist folder to the
    summary, for a non-empty confirmed selection. *)
Definition download_selected (cfg : Config) (title : jsstring)
    (fmt : Format) (q : Quality) (selectedVideos : list PlaylistEntry)
    (sys : Sys World) : BatchResult * Sys World :=
  let playlistFolder := playlist_folder cfg title in
  let '(ok, ko, sys') :=
    download_each cfg fmt q playlistFolder selectedVideos 0 0
                  (with_folder cfg title sys) in
  ({| successful := ok; failed := ko; location := playlistFolder |}, sys').

End Orchestration.

(** ** A scripted world

    For concrete runs: the world is the list of the runs still to come,
    handed out in order whatever the arguments; when it is used up the
    subprocess cannot be launched. The clock does not move. *)

Definition scripted_spawn (args : list jsstring) (script : list ProcRun)
    : ProcRun * list ProcRun :=
  match script with
  | run :: script' => (run, script')
  | [] => ({| chunks := []; written := ∅;
              ending := LaunchError (js "spawn yt-dlp ENOENT") |}, [])
  end.

Definition scripted_clock (script : list ProcRun) : N := 1700000000000.

(** A run that prints nothing and writes nothing. *)
Definition silent_exit (code : Z) : ProcRun :=
  {| chunks := []; written := ∅; ending := Closed (Some code) |}.

Definition start_of (script : list ProcRun) (fs : filesystem)
    : Sys (list ProcRun) :=
  {| world := script; files := fs; spawned := [] |}.

(** The contents of the file [name] of directory [dir], if both exist. *)
Definition content_of (fs : filesystem) (dir name : path) : option (list N) :=
  match fs !! dir with
  | Some held => held !! name
  | None => None
  end.

(** Sample data for concrete runs. *)
Definition sample_config : Config :=
  {| downloadDir := js "/home/user/downloads";
     tempDir := js "/tmp/yt-downloader-temp";
     cookiesFile := None |}.

Definition sample_url : jsstring := js "https://www.youtube.com/watch?v=abc123".

Definition sample_options : DownloadOptions :=
  {| format := Both; quality := Highest;
     outputDir := None; videoId := Some (js "abc123") |}.

(** A run that reports progress, leaves one mp4 file and exits with 0. *)
Definition sample_run : ProcRun :=
  {| chunks := [(Stdout, js "[download]  42.5% of ~10.00MiB at 1.20MiB/s");
                (Stdout, js "[download] 100% of 10.00MiB")];
     written := {[ js "clip.mp4" := js "MPEG4-DATA" ]};
     ending := Closed (Some 0%Z) |}.

(** A run that fails with a message on its error stream. *)
Definition sample_failure : ProcRun :=
  {| chunks := [(Stderr, js "WARNING: retrying");
                (Stderr, [10] ++ js "ERROR: Video unavailable " ++ [10])];
     written := {[ js "clip.mp4.part" := js "MPEG" ]};
     ending := Closed (Some 1%Z) |}.

Definition sample_entry (id : string) : PlaylistEntry :=
  {| entry_title := js "Untitled";
     entry_url := js "https://www.youtube.com/watch?v=" ++ js id;
     entry_duration := None;
     entry_id := js id |}.

(** Options that carry no item identifier. *)
Definition anonymous_options : DownloadOptions :=
  {| format := Both; quality := Highest; outputDir := None; videoId := None |}.

(** A metadata run that prints a record and exits with 0. *)
Definition sample_metadata : ProcRun :=
  {| chunks := [(Stdout, js "{}")]; written := ∅; ending := Closed (Some 0%Z) |}.

(** A configuration with a cookies file, and a file system that has it. *)
Definition cookie_config : Config :=
  {| downloadDir := js "/home/user/downloads";
     tempDir := js "/tmp/yt-downloader-temp";
     cookiesFile := Some (js "/home/user/cookies.txt") |}.

Definition cookie_files : filesystem :=
  {[ js "/home/user" := {[ js "cookies.txt" := js "# Netscape HTTP Cookie File" ]} ]}.

From Stdlib Require Import Sorting.Sorted.

(** ** Further parts of the tool *)

(** No two neighbouring units of [s] are both [c]. *)
Fixpoint no_adjacent (c : N) (s : jsstring) : bool :=
  match s with
  | a :: rest =>
      match rest with
      | b :: _ => negb ((a =? c) && (b =? c)) && no_adjacent c rest
      | [] => true
      end
  | [] => true
  end.

(** A printable ASCII unit other than the space. *)
Definition is_visible_ascii (c : N) : bool := (33 <=? c) && (c <=? 126).

(** [s.padStart(2, '0')] *)
Definition padStart2 (s : jsstring) : jsstring :=
  repeat 48 (2 - length s) ++ s.

(** [formatDuration(seconds)] on integers: [undefined], [NaN] and 0 are
    falsy; [Math.floor(seconds / 3600)] is the floored quotient and [%]
    the remainder with the sign of the dividend. *)
Definition formatDuration (seconds : option number) : jsstring :=
  match seconds with
  | Some (Num s) =>
      if (s =? 0)%Z then js "Unknown"
      else
        let hrs := (s / 3600)%Z in
        let mins := (Z.rem s 3600 / 60)%Z in
        let secs := Z.rem s 60 in
        if (0 <? hrs)%Z then
          number_toString (Num hrs) ++ js ":"
          ++ padStart2 (number_toString (Num mins)) ++ js ":"
          ++ padStart2 (number_toString (Num secs))
        else
          number_toString (Num mins) ++ js ":"
          ++ padStart2 (number_toString (Num secs))
  | _ => js "Unknown"
  end.


(** A position as a user may type it: its numeral between blanks. *)
Definition padded_numeral (piece : jsstring * nat * jsstring) : jsstring :=
  piece.1.1 ++ numeral piece.1.2 ++ piece.2.

(** Both paddings of a piece are white space. *)
Definition blank_padding (piece : jsstring * nat * jsstring) : Prop :=
  Forall (fun c => is_space c = true) piece.1.1
  /\ Forall (fun c => is_space c = true) piece.2.

(** The readings of the chunks that carry a percent token, in order. *)
Definition readings (chunks : list (Stream * jsstring)) : list float :=
  omap (fun chunk : Stream * jsstring => percent_reading chunk.2) chunks.

(** [cleanTempDir()]: the temporary root is removed when it exists, and
    created again. *)
Definition cleanTempDir (cfg : Config) (fs : filesystem) : filesystem :=
  ensureDir (tempDir cfg)
            (if existsSync fs (tempDir cfg) then rmSync (tempDir cfg) fs else fs).

(** ** Playlist listing *)

(** One record of the flat listing, as far as [getPlaylistInfo] reads
    it: whether [_type] is [playlist], and the fields it takes. A field
    that is absent is [None]. *)
Record Item : Type := {
  item_is_playlist : bool;
  item_title : option jsstring;
  item_uploader : option jsstring;
  item_channel : option jsstring;
  item_id : option jsstring;
  item_duration : option number;
  item_playlist_title : option jsstring;
  item_playlist : option jsstring
}.

(** What [getPlaylistInfo] resolves with. *)
Record Playlist : Type := {
  playlist_title : jsstring;
  playlist_author : jsstring;
  playlist_items : list PlaylistEntry
}.

(** [field || fallback] for a text field: absent and empty are falsy. *)
Definition field_or (field : option jsstring) (fallback : jsstring) : jsstring :=
  or_else (default [] field) fallback.

(** The object pushed for a record with an identifier. *)
Definition entry_of_item (item : Item) : PlaylistEntry :=
  {| entry_title := field_or (item_title item) (js "Untitled");
     entry_url := js "https://www.youtube.com/watch?v=" ++ default [] (item_id item);
     entry_duration := item_duration item;
     entry_id := default [] (item_id item) |}.

(** The body of [for (const item of items)]. *)
Definition playlist_step (acc : jsstring * jsstring * list PlaylistEntry)
    (item : Item) : jsstring * jsstring * list PlaylistEntry :=
  let '(playlistTitle, playlistAuthor, videos) := acc in
  if item_is_playlist item then
    (field_or (item_title item) playlistTitle,
     field_or (item_uploader item) (field_or (item_channel item) playlistAuthor),
     videos)
  else
    match default [] (item_id item) with
    | [] => acc
    | _ => (playlistTitle, playlistAuthor, videos ++ [entry_of_item item])
    end.

(** The playlist built from the parsed records. *)
Definition build_playlist (items : list Item) : Playlist :=
  let '(playlistTitle, playlistAuthor, videos) :=
    fold_left playlist_step items (js "Playlist", js "Unknown", []) in
  let playlistTitle :=
    match videos, items with
    | _ :: _, first :: _ =>
        field_or (item_playlist_title first)
                 (field_or (item_playlist first) playlistTitle)
    | _, _ => playlistTitle
    end in
  {| playlist_title := playlistTitle;
     playlist_author := playlistAuthor;
     playlist_items := videos |}.

(** A record that becomes an entry: not the playlist record, and with an
    identifier. *)
Definition is_video (item : Item) : bool :=
  negb (item_is_playlist item)
  && match default [] (item_id item) with [] => false | _ => true end.

Section Listing.

Context {World : Type}.
Variable spawn : list jsstring -> World -> ProcRun * World.

(** [JSON.parse(line)] as far as the listing needs it: the record, or
    the message of the exception. *)
Variable JSON_parse_item : jsstring -> Item + jsstring.

(** [lines.map(line => JSON.parse(line))]: the first line that does not
    parse throws. *)
Fixpoint parse_lines (lines : list jsstring) : list Item + jsstring :=
  match lines with
  | [] => inl []
  | line :: rest =>
      match JSON_parse_item line with
      | inl item =>
          match parse_lines rest with
          | inl items => inl (item :: items)
          | inr message => inr message
          end
      | inr message => inr message
      end
  end.

(** The [try] of the close handler of [getPlaylistInfo]. *)
Definition parse_playlist (output : jsstring) : Settled Playlist :=
  match parse_lines (split_on 10 (trim output)) with
  | inl items => Resolved (build_playlist items)
  | inr message => Rejected (js "Failed to parse playlist info: " ++ message)
  end.

(** The argument vector of the listing. *)
Definition playlist_args (cfg : Config) (fs : filesystem) (url : jsstring)
    : list jsstring :=
  [js "--flat-playlist"; js "--dump-json"] ++ cookie_args cfg fs ++ [url].

(** [getPlaylistInfo(url)]: its list of attempts has the one argument
    vector, so the loop runs once and a failure is thrown at once. *)
Definition getPlaylistInfo (cfg : Config) (url : jsstring) (sys : Sys World)
    : Settled Playlist * Sys World :=
  let '(run, sys') := run_process spawn (playlist_args cfg (files sys) url) sys in
  let output := stream_text Stdout run in
  let errorOutput := stream_text Stderr run in
  (match ending run with
   | Closed code =>
       if bool_decide (code = Some 0%Z) && bool_decide (output <> []) then
         parse_playlist output
       else Rejected (or_else errorOutput (js "Failed to fetch playlist info"))
   | LaunchError message => Rejected message
   end, sys').

End Listing.

(** A stand-in for [JSON.parse] in concrete runs: a line in braces is a
    record whose identifier is the text between them, [{}] the playlist
    record, and anything else does not parse. *)
Definition sample_parse_item (line : jsstring) : Item + jsstring :=
  match line with
  | c :: rest =>
      if c =? 123 then
        inl {| item_is_playlist := bool_decide (rest = [125]);
               item_title := None; item_uploader := None; item_channel := None;
               item_id := Some (List.filter (fun x => negb (x =? 125)) rest);
               item_duration := None;
               item_playlist_title := None; item_playlist := None |}
      else inr (js "Unexpected token in JSON at position 0")
  | [] => inr (js "Unexpected end of JSON input")
  end.

(** A listing of two videos, and one whose second line is broken. *)
Definition sample_listing : jsstring :=
  js "{a1}" ++ [10] ++ js "{b2}" ++ [10].

Definition broken_listing : jsstring :=
  js "{a1}" ++ [10] ++ js "oops" ++ [10] ++ js "{c3}" ++ [10].

Definition listing_run (output : jsstring) : ProcRun :=
  {| chunks := [(Stdout, output)]; written := ∅; ending := Closed (Some 0%Z) |}.

(** ** Single videos, playlists and the command line *)

(** What the user answers to the prompts of [downloadPlaylist]. *)
Inductive Selection : Type :=
  | Cancel
  | AllVideos
  | SelectVideos (chosen : list PlaylistEntry)
  | RangeText (rangeInput : jsstring).

Record Answers : Type := {
  selectOption : Selection;
  confirmDownload : bool
}.

(** [selectedVideos] after the prompts; [None] when the user cancels. *)
Definition selected_videos (choice : Selection) (items : list PlaylistEntry)
    : option (list PlaylistEntry) :=
  match choice with
  | Cancel => None
  | AllVideos => Some items
  | SelectVideos chosen => Some chosen
  | RangeText rangeInput => Some (range_selection rangeInput items)
  end.

(** How [handleArgs] ends: [process.exit(code)], a normal return, or the
    interactive menu (which is not modelled). *)
Inductive Exit : Type :=
  | ExitCode (code : Z)
  | Completed
  | Interactive.

(** [url.includes('youtube.com') || url.includes('youtu.be')] *)
Definition is_youtube_url (url : jsstring) : bool :=
  includes url (js "youtube.com") || includes url (js "youtu.be").

(** [args.includes('--audio') ? 'audio' : args.includes('--video-only')
    ? 'video' : 'both'] *)
Definition cli_format (args : list jsstring) : Format :=
  if existsb (fun a => bool_decide (a = js "--audio")) args then Audio
  else if existsb (fun a => bool_decide (a = js "--video-only")) args then Video
  else Both.

Section Commands.

Context {World Info : Type}.
Variable spawn : list jsstring -> World -> ProcRun * World.
Variable clock : World -> N.
Variable JSON_parse : jsstring -> option Info.
Variable JSON_parse_item : jsstring -> Item + jsstring.

(** [info.id] *)
Variable info_id : Info -> option jsstring.

(** [downloadVideo(url, { format, quality })]: the metadata first, then
    the download under the identifier it gave; an error of either is
    logged and thrown again. *)
Definition downloadVideo (cfg : Config) (url : jsstring) (fmt : Format)
    (q : Quality) (sys : Sys World) : Settled unit * Sys World :=
  match getVideoInfo spawn JSON_parse cfg url sys with
  | (Resolved info, sys1) =>
      match downloadVideoWithProgress spawn clock cfg url
              {| format := fmt; quality := q;
                 outputDir := Some (downloadDir cfg);
                 videoId := info_id info |} sys1 with
      | (Resolved _, _, sys2) => (Resolved tt, sys2)
      | (Rejected message, _, sys2) => (Rejected message, sys2)
      end
  | (Rejected message, sys1) => (Rejected message, sys1)
  end.

(** [downloadPlaylist(url, { format, quality })] with the answers the
    user gives: the tally when a batch was run, [None] when the listing
    failed (the error is caught and logged), the user cancelled, nothing
    was selected or the confirmation was declined. *)
Definition downloadPlaylist (cfg : Config) (url : jsstring) (fmt : Format)
    (q : Quality) (answers : Answers) (sys : Sys World)
    : option BatchResult * Sys World :=
  match getPlaylistInfo spawn JSON_parse_item cfg url sys with
  | (Rejected _, sys1) => (None, sys1)
  | (Resolved playlist, sys1) =>
      match selected_videos (selectOption answers) (playlist_items playlist) with
      | None => (None, sys1)
      | Some [] => (None, sys1)
      | Some selectedVideos =>
          if confirmDownload answers then
            let '(result, sys2) :=
              download_selected spawn clock cfg (playlist_title playlist)
                                fmt q selectedVideos sys1 in
            (Some result, sys2)
          else (None, sys1)
      end
  end.

(** The system with its temporary root cleaned. *)
Definition cleaned (cfg : Config) (sys : Sys World) : Sys World :=
  {| world := world sys;
     files := cleanTempDir cfg (files sys);
     spawned := spawned sys |}.

(** [handleArgs()] on the arguments [args = process.argv.slice(2)]. *)
Definition handleArgs (cfg : Config) (args : list jsstring) (answers : Answers)
    (sys : Sys World) : Exit * Sys World :=
  match args with
  | [] => (Interactive, sys)
  | url :: _ =>
      if negb (is_youtube_url url) then (ExitCode 1, sys)
      else
        let fmt := cli_format args in
        let sys1 := cleaned cfg sys in
        if includes url (js "list=") then
          let '(_, sys2) := downloadPlaylist cfg url fmt Highest answers sys1 in
          (Completed, cleaned cfg sys2)
        else
          match downloadVideo cfg url fmt Highest sys1 with
          | (Resolved _, sys2) => (Completed, cleaned cfg sys2)
          | (Rejected _, sys2) => (ExitCode 1, sys2)
          end
  end.

End Commands.

(** ** Format choice of the first iteration *)

(** A format of [info.formats], as far as [getAvailableFormats] reads it. *)
Record MediaFormat : Type := {
  hasAudio : bool;
  hasVideo : bool;
  audioBitrate : option N;
  height : option N
}.

(** [f.audioBitrate || 0] *)
Definition bitrate_key (f : MediaFormat) : Z :=
  Z.of_N (default 0 (audioBitrate f)).

(** [parseInt(f.height) || 0]: the number is turned into text and
    read back. *)
Definition height_key (f : MediaFormat) : Z :=
  match height f with
  | Some h =>
      match parseInt (N_toString h) with
      | Num z => z
      | NaN => 0%Z
      end
  | None => 0%Z
  end.

(** [Array.prototype.sort] with a comparator is stable, and a stable
    sort has one possible result: the one of inserting each element, from
    the last to the first, before the first element it must not follow. *)
Fixpoint insert_by {A} (compare : A -> A -> Z) (x : A) (sorted : list A)
    : list A :=
  match sorted with
  | [] => [x]
  | y :: rest =>
      if (compare x y <=? 0)%Z then x :: sorted
      else y :: insert_by compare x rest
  end.

Definition sort_by {A} (compare : A -> A -> Z) (l : list A) : list A :=
  fold_right (insert_by compare) [] l.

(** The filter of each branch of [getAvailableFormats]. *)
Definition format_matches (type : Format) (f : MediaFormat) : bool :=
  match type with
  | Audio => hasAudio f && negb (hasVideo f)
  | Video => hasVideo f
  | Both => hasVideo f && hasAudio f
  end.

(** The key each branch sorts by, greatest first. *)
Definition format_key (type : Format) : MediaFormat -> Z :=
  match type with
  | Audio => bitrate_key
  | _ => height_key
  end.

(** [getAvailableFormats(info, type)] on [info.formats]. *)
Definition getAvailableFormats (formats : list MediaFormat) (type : Format)
    : list MediaFormat :=
  sort_by (fun a b => (format_key type b - format_key type a)%Z)
          (List.filter (format_matches type) formats).

(** Three formats: a combined one at 360, an audio one, a combined one
    at 1080. *)
Definition sample_formats : list MediaFormat :=
  [{| hasAudio := true; hasVideo := true; audioBitrate := Some 128; height := Some 360 |};
   {| hasAudio := true; hasVideo := false; audioBitrate := Some 160; height := None |};
   {| hasAudio := true; hasVideo := true; audioBitrate := None; height := Some 1080 |}].

(** ** The plain download of the iteration without staging *)

Section PlainDownload.

Context {World : Type}.
Variable spawn : list jsstring -> World -> ProcRun * World.

(** [downloadVideoSimple(url, { format, quality, outputPath })]: the
    extractor writes into the target directory itself, and nothing is
    cleaned up afterwards. *)
Definition downloadVideoSimple (cfg : Config) (url : jsstring) (fmt : Format)
    (q : Quality) (outputPath : option path) (sys : Sys World)
    : Settled path * Sys World :=
  let targetDir := or_else (default (downloadDir cfg) outputPath)
                           (downloadDir cfg) in
  let fs1 := ensureDir targetDir (files sys) in
  let '(run, sys1) :=
    run_process spawn (download_args_simple targetDir url fmt q)
      {| world := world sys; files := fs1; spawned := spawned sys |} in
  let sys2 := {| world := world sys1;
                 files := write_into targetDir (written run) (files sys1);
                 spawned := spawned sys1 |} in
  match ending run with
  | Closed code =>
      if bool_decide (code = Some 0%Z) then (Resolved targetDir, sys2)
      else (Rejected (failure_message (stream_text Stderr run) code), sys2)
  | LaunchError message => (Rejected message, sys2)
  end.

End PlainDownload.

(** * Properties *)

(** ** Filename sanitizer *)

Example sanitize_plain :
  sanitizeFilename (js "My  Video: part 1/2?") false = js "My_Video_part_1_2".
Proof. vm_compute. reflexivity. Qed.

Example sanitize_fallback :
  sanitizeFilename (js "???") true = js "download".
Proof. vm_compute. reflexivity. Qed.

Section SanitizerFacts.

Lemma clean_underscore : clean_unit underscore.
Proof. split; reflexivity. Qed.

Lemma replace_class_forbidden s :
  Forall (fun c => is_forbidden c = false)
         (replace_class is_forbidden underscore s).
Proof.
  induction s as [|c s IH]; simpl; constructor; auto.
  destruct (is_forbidden c) eqn:E; [reflexivity | exact E].
Qed.

Lemma remove_class_Forall (P : N -> Prop) p s :
  Forall P s -> Forall P (remove_class p s).
Proof.
  induction 1 as [|c s Hc Hs IH]; simpl; [constructor|].
  destruct (p c); simpl; auto.
Qed.

Lemma replace_runs_space_clean s b :
  Forall (fun c => is_forbidden c = false) s ->
  Forall clean_unit (replace_runs_from is_space underscore b s).
Proof.
  intros H. revert b.
  induction H as [|c s Hc Hs IH]; intros b; simpl; [constructor|].
  destruct (is_space c) eqn:E.
  - destruct b; [apply IH|constructor; [apply clean_underscore|apply IH]].
  - constructor; [split; assumption|apply IH].
Qed.

Lemma replace_runs_Forall (P : N -> Prop) p r b s :
  P r -> Forall P s -> Forall P (replace_runs_from p r b s).
Proof.
  intros Hr H. revert b.
  induction H as [|c s Hc Hs IH]; intros b; simpl; [constructor|].
  destruct (p c); [destruct b|]; auto.
Qed.

Lemma drop_last_if_Forall (P : N -> Prop) p s :
  Forall P s -> Forall P (drop_last_if p s).
Proof.
  induction 1 as [|c s Hc Hs IH]; simpl; [constructor|].
  destruct s as [|d s].
  - destruct (p c); auto.
  - constructor; auto.
Qed.

Lemma strip_edge_Forall (P : N -> Prop) s :
  Forall P s -> Forall P (strip_edge_underscores s).
Proof.
  intros H. unfold strip_edge_underscores.
  apply drop_last_if_Forall.
  destruct H as [|c s Hc Hs]; [constructor|].
  destruct (c =? underscore); auto.
Qed.

Lemma trim_start_Forall (P : N -> Prop) s :
  Forall P s -> Forall P (trim_start s).
Proof.
  induction 1 as [|c s Hc Hs IH]; simpl; [constructor|].
  destruct (is_space c); auto.
Qed.

Lemma trim_Forall (P : N -> Prop) s : Forall P s -> Forall P (trim s).
Proof.
  intros H. unfold trim, trim_end.
  apply Forall_rev, trim_start_Forall, Forall_rev, trim_start_Forall, H.
Qed.

Lemma or_else_nonempty a b : b <> [] -> or_else a b <> [].
Proof. destruct a; simpl; [auto|discriminate]. Qed.

Lemma or_else_length a b n :
  (length a <= n)%nat -> (length b <= n)%nat -> (length (or_else a b) <= n)%nat.
Proof. destruct a; simpl; auto. Qed.

Lemma or_else_Forall (P : N -> Prop) a b :
  Forall P a -> Forall P b -> Forall P (or_else a b).
Proof. destruct a; simpl; auto. Qed.

End SanitizerFacts.

(** C10. For every input string and either value of [asciiOnly], the
    sanitizer returns a non-empty string of at most 150 code units, none
    of which is one of the characters < > : double-quote / \ | ? * or a
    whitespace character; when everything is stripped away the result is
    the literal [download]. *)
Theorem sanitizeFilename_safe (filename : jsstring) (asciiOnly : bool) :
  let r := sanitizeFilename filename asciiOnly in
  r <> []
  /\ (length r <= 150)%nat
  /\ Forall clean_unit r
  /\ (sanitized_text filename asciiOnly = [] -> r = js "download").
Proof.
  cbv zeta. unfold sanitizeFilename.
  split; [apply or_else_nonempty; discriminate|].
  split.
  { apply or_else_length; [|vm_compute; lia].
    unfold sanitized_text, substring0. rewrite length_take. lia. }
  split.
  { apply or_else_Forall.
    - unfold sanitized_text, substring0.
      apply Forall_take, trim_Forall, strip_edge_Forall.
      apply replace_runs_Forall; [apply clean_underscore|].
      apply replace_runs_space_clean.
      destruct asciiOnly; repeat apply remove_class_Forall;
        apply replace_class_forbidden.
    - vm_compute. repeat constructor. }
  intros ->. reflexivity.
Qed.

Lemma sanitizeFilename_safe_witness :
  sanitized_text (js "???") true = []
  /\ sanitizeFilename (js "???") true = js "download".
Proof.
  split; [vm_compute; reflexivity|].
  apply (sanitizeFilename_safe (js "???") true). vm_compute. reflexivity.
Defined.

(** ** Playlist selection *)

Example range_2_4 :
  range_selection (js "2-4") (seq 1 10) = [2; 3; 4]%nat.
Proof. vm_compute. reflexivity. Qed.

Example range_1_3_50 :
  range_selection (js "1,3,50") (seq 1 10) = [1; 3]%nat.
Proof. vm_compute. reflexivity. Qed.

Example range_0_10 :
  range_selection (js "0-10") (seq 1 10) = [10]%nat.
Proof. vm_compute. reflexivity. Qed.

Example range_hex :
  range_selection (js "0x2, 3") (seq 1 10) = [2; 3]%nat.
Proof. vm_compute. reflexivity. Qed.

Example numeral_now : N_toString 1700000000123 = js "1700000000123".
Proof. vm_compute. reflexivity. Qed.

Example parseInt_samples :
  map parseInt [js "12"; js "  -7px"; js "0x1F"; js "abc"; js ""; js "08"; js "+3.9"]
  = [Num 12; Num (-7); Num 31; NaN; NaN; Num 8; Num 3].
Proof. vm_compute. reflexivity. Qed.

Section Numerals.

Lemma digit_not_space c : is_digit c = true -> is_space c = false.
Proof.
  unfold is_digit, is_space. intros H.
  apply andb_true_iff in H as [H1 H2].
  apply N.leb_le in H1. apply N.leb_le in H2.
  repeat (apply orb_false_iff; split);
    try (apply N.eqb_neq; lia);
    apply andb_false_iff; [right | left]; apply N.leb_gt; lia.
Qed.

Lemma digit_value_decimal c :
  is_digit c = true -> digit_value 10 c = Some (c - 48).
Proof.
  unfold digit_value. intros H. rewrite H.
  apply andb_true_iff in H as [H1 H2].
  apply N.leb_le in H1. apply N.leb_le in H2.
  destruct (c - 48 <? 10) eqn:E; [reflexivity|].
  apply N.ltb_ge in E. lia.
Qed.

Lemma rev_digits_digit fuel n : Forall (fun c => is_digit c = true) (rev_digits fuel n).
Proof.
  revert n. induction fuel as [|fuel IH]; intros n; cbn [rev_digits];
    [constructor|].
  constructor.
  - unfold is_digit. pose proof (N.mod_upper_bound n 10 ltac:(lia)).
    generalize dependent (n mod 10). intros r Hr.
    apply andb_true_iff. split; apply N.leb_le; lia.
  - destruct (n / 10 =? 0); [constructor | apply IH].
Qed.

Lemma rev_digits_value fuel n :
  n < 2 ^ N.of_nat fuel ->
  fold_right (fun c v => (c - 48) + 10 * v) 0 (rev_digits fuel n) = n.
Proof.
  revert n. induction fuel as [|fuel IH]; intros n Hn.
  - simpl in Hn. assert (n = 0) by lia. subst. reflexivity.
  - cbn [rev_digits fold_right].
    pose proof (N.div_mod n 10 ltac:(lia)) as Hdm.
    destruct (n / 10 =? 0) eqn:E.
    + apply N.eqb_eq in E. cbn [fold_right].
      generalize dependent (n mod 10). intros r Hr.
      generalize dependent (n / 10). intros q Hq. lia.
    + rewrite IH.
      * generalize dependent (n mod 10). intros r Hr.
        generalize dependent (n / 10). intros q Hq. lia.
      * rewrite Nat2N.inj_succ, N.pow_succ_r' in Hn.
        apply N.Div0.div_lt_upper_bound. lia.
Qed.

Lemma parse_digits_decimal s acc :
  Forall (fun c => is_digit c = true) s -> s <> [] ->
  parse_digits 10 acc s
  = Some (fold_left (fun v c => 10 * v + (c - 48)) s (default 0 acc)).
Proof.
  intros H. revert acc.
  induction H as [|c s Hc Hs IH]; intros acc Hne; [congruence|].
  cbn [parse_digits fold_left]. rewrite (digit_value_decimal _ Hc).
  destruct s as [|d s]; [reflexivity|].
  rewrite IH by discriminate. reflexivity.
Qed.

Lemma N_toString_digits n : Forall (fun c => is_digit c = true) (N_toString n).
Proof. unfold N_toString. apply Forall_rev, rev_digits_digit. Qed.

Lemma N_toString_nonempty n : N_toString n <> [].
Proof.
  unfold N_toString. cbn [rev_digits]. simpl rev.
  intros H. apply app_eq_nil in H as [_ H]. discriminate.
Qed.

Lemma decimal_value_rev (l : jsstring) :
  fold_left (fun v c => 10 * v + (c - 48)) (rev l) 0
  = fold_right (fun c v => (c - 48) + 10 * v) 0 l.
Proof.
  induction l as [|c l IH]; [reflexivity|].
  simpl rev. rewrite fold_left_app. cbn [fold_left fold_right].
  rewrite IH. lia.
Qed.

Lemma N_toString_value n :
  fold_left (fun v c => 10 * v + (c - 48)) (N_toString n) 0 = n.
Proof.
  unfold N_toString. rewrite decimal_value_rev.
  apply rev_digits_value.
  destruct (N.eq_dec n 0) as [->|Hn]; [reflexivity|].
  rewrite Nat2N.inj_succ, N2Nat.id.
  apply N.log2_spec. lia.
Qed.

Lemma trim_start_id s :
  Forall (fun c => is_space c = false) s -> trim_start s = s.
Proof. destruct 1 as [|c s Hc Hs]; simpl; [reflexivity | now rewrite Hc]. Qed.

Lemma trim_id s : Forall (fun c => is_space c = false) s -> trim s = s.
Proof.
  intros H. unfold trim, trim_end.
  rewrite (trim_start_id s H), trim_start_id by now apply Forall_rev.
  apply rev_involutive.
Qed.

Lemma digits_no_space s :
  Forall (fun c => is_digit c = true) s -> Forall (fun c => is_space c = false) s.
Proof.
  intros H. eapply Forall_impl; [exact H | exact digit_not_space].
Qed.

Lemma digit_bounds c : is_digit c = true -> 48 <= c <= 57.
Proof.
  unfold is_digit. intros H. apply andb_true_iff in H as [H1 H2].
  apply N.leb_le in H1. apply N.leb_le in H2. lia.
Qed.

Lemma parseInt_digits s :
  Forall (fun c => is_digit c = true) s -> s <> [] ->
  parseInt s = Num (Z.of_N (fold_left (fun v c => 10 * v + (c - 48)) s 0)).
Proof.
  intros H Hne. unfold parseInt.
  rewrite (trim_start_id s (digits_no_space s H)).
  destruct H as [|c t Hc Ht]; [congruence|].
  pose proof (digit_bounds c Hc) as Bc.
  replace (c =? 45) with false by (symmetry; apply N.eqb_neq; lia).
  replace (c =? 43) with false by (symmetry; apply N.eqb_neq; lia).
  assert (Hr : (match c :: t with
                | z :: x :: t0 =>
                    if (z =? 48) && ((x =? 120) || (x =? 88))
                    then (16, t0) else (10, c :: t)
                | _ => (10, c :: t)
                end) = (10, c :: t)).
  { destruct Ht as [|x t0 Hx Ht0]; [reflexivity|].
    pose proof (digit_bounds x Hx) as Bx.
    replace (x =? 120) with false by (symmetry; apply N.eqb_neq; lia).
    replace (x =? 88) with false by (symmetry; apply N.eqb_neq; lia).
    now rewrite andb_false_r. }
  rewrite Hr.
  rewrite parse_digits_decimal by (constructor; assumption) || discriminate.
  reflexivity.
Qed.

Lemma numeral_digits n : Forall (fun c => is_digit c = true) (numeral n).
Proof. apply N_toString_digits. Qed.

Lemma parseInt_numeral n : parseInt (trim (numeral n)) = Num (Z.of_nat n).
Proof.
  rewrite trim_id by apply digits_no_space, numeral_digits.
  rewrite parseInt_digits by (apply numeral_digits || apply N_toString_nonempty).
  unfold numeral. rewrite N_toString_value. now rewrite nat_N_Z.
Qed.

End Numerals.

Section Splitting.

Lemma split_on_absent sep s :
  Forall (fun c => c <> sep) s -> split_on sep s = [s].
Proof.
  induction 1 as [|c s Hc Hs IH]; [reflexivity|].
  cbn [split_on]. apply N.eqb_neq in Hc. now rewrite Hc, IH.
Qed.

Lemma split_on_app sep a b :
  Forall (fun c => c <> sep) a ->
  split_on sep (a ++ sep :: b) = a :: split_on sep b.
Proof.
  induction 1 as [|c s Hc Hs IH]; cbn [split_on app].
  - now rewrite N.eqb_refl.
  - apply N.eqb_neq in Hc. now rewrite Hc, IH.
Qed.

Lemma split_on_join sep pieces :
  Forall (Forall (fun c => c <> sep)) pieces -> pieces <> [] ->
  split_on sep (join_with sep pieces) = pieces.
Proof.
  induction 1 as [|p rest Hp Hrest IH]; intros Hne; [congruence|].
  destruct rest as [|q rest].
  - now apply split_on_absent.
  - change (join_with sep (p :: q :: rest)) with (p ++ sep :: join_with sep (q :: rest)).
    rewrite split_on_app by assumption.
    now rewrite IH.
Qed.

Lemma includes_single s c : includes s [c] = existsb (N.eqb c) s.
Proof.
  induction s as [|d s IH]; [reflexivity|].
  cbn [includes existsb]. rewrite IH.
  unfold starts_with. cbn [starts_with_by]. now rewrite andb_true_r.
Qed.

Lemma existsb_absent sep s :
  Forall (fun c => c <> sep) s -> existsb (N.eqb sep) s = false.
Proof.
  induction 1 as [|c s Hc Hs IH]; [reflexivity|].
  cbn [existsb]. rewrite IH, orb_false_r. apply N.eqb_neq. congruence.
Qed.

Lemma digits_avoid sep s :
  is_digit sep = false ->
  Forall (fun c => is_digit c = true) s -> Forall (fun c => c <> sep) s.
Proof.
  intros Hsep H. eapply Forall_impl; [exact H|].
  intros c Hc ->. congruence.
Qed.

Lemma join_avoid sep sep' pieces :
  sep <> sep' ->
  Forall (Forall (fun c => c <> sep')) pieces ->
  Forall (fun c => c <> sep') (join_with sep pieces).
Proof.
  intros Hne. induction 1 as [|p rest Hp Hrest IH]; [constructor|].
  destruct rest as [|q rest]; [assumption|].
  change (join_with sep (p :: q :: rest)) with (p ++ sep :: join_with sep (q :: rest)).
  apply Forall_app. split; [assumption|]. constructor; assumption.
Qed.

End Splitting.

Section Selection.

Context {A : Type}.
Implicit Types items : list A.




Lemma includes_dash_range (a b : jsstring) :
  includes (a ++ js "-" ++ b) (js "-") = true.
Proof.
  change (js "-") with [45]. rewrite includes_single, existsb_app.
  cbn [app existsb]. rewrite N.eqb_refl. apply orb_true_r.
Qed.

Lemma numeral_avoid sep n :
  is_digit sep = false -> Forall (fun c => c <> sep) (numeral n).
Proof. intros H. apply digits_avoid; [exact H | apply numeral_digits]. Qed.

Lemma range_selection_dash items (a b : nat) :
  range_selection (numeral a ++ js "-" ++ numeral b) items
  = slice items (Num (Z.of_nat a - 1)) (Some (Num (Z.of_nat b))).
Proof.
  unfold range_selection. rewrite includes_dash_range.
  change (js "-") with [45]. cbn [app].
  rewrite split_on_app by now apply numeral_avoid.
  rewrite split_on_absent by now apply numeral_avoid.
  cbn [map lookup list_lookup default].
  now rewrite !parseInt_numeral.
Qed.

Lemma index_position items (q : nat) :
  index items (pred_number (Num (Z.of_nat q)))
  = match q with O => None | S i => items !! i end.
Proof.
  unfold index, pred_number. destruct q as [|i]; [reflexivity|].
  replace (Z.of_nat (S i) - 1 <? 0)%Z with false by (symmetry; apply Z.ltb_ge; lia).
  f_equal. lia.
Qed.


End Selection.




(** ** Patterns *)

Example match_percent_sample :
  match_percent (js "[download]  42.5% of ~10.00MiB at 1.20MiB/s") = Some (js "42.5").
Proof. vm_compute. reflexivity. Qed.

Example match_speed_sample :
  match_speed (js "[download]  42.5% of ~10.00MiB at 1.20MiB/s") = Some (js "1.20MiB/s").
Proof. vm_compute. reflexivity. Qed.

Example match_speed_simple_sample :
  match_speed_simple (js "[download]  42.5% of ~10.00MiB at 1.20MiB/s")
  = Some (js "1.20MiB/s").
Proof. vm_compute. reflexivity. Qed.

Example parseFloat_samples :
  map parseFloat [js "42.5"; js "100"; js "7."; js "-0.25"; js "x"]
  = [Fin (425 # 10); Fin (100 # 1); Fin (7 # 1); Fin (-25 # 100); FNaN].
Proof. vm_compute. reflexivity. Qed.

(** ** Progress tracking *)

Example updateProgress_sample :
  let st := updateProgress (js "[download]  42.5% of ~10.00MiB at 1.20MiB/s")
                           initial_progress in
  percent st = Fin (425 # 10) /\ throughput st = js "1.20MiB/s".
Proof. vm_compute. split; reflexivity. Qed.

Example updateProgress_overshoot :
  percent (updateProgress (js "[download] 250% done") initial_progress)
  = Fin (250 # 1).
Proof. vm_compute. reflexivity. Qed.

Section Matching.

Lemma span_spec p s taken rest :
  span p s = (taken, rest) ->
  s = taken ++ rest
  /\ Forall (fun c => p c = true) taken
  /\ (match rest with c :: _ => p c = false | [] => True end).
Proof.
  revert taken rest. induction s as [|c s IH]; intros taken rest H.
  - inversion H; subst. repeat split; constructor.
  - cbn [span] in H. destruct (p c) eqn:E.
    + destruct (span p s) as [t r]. inversion H; subst.
      destruct (IH t rest eq_refl) as (-> & Ht & Hr).
      repeat split; [constructor; assumption | exact Hr].
    + inversion H; subst. repeat split; [constructor | exact E].
Qed.

Lemma span_stop p c s : p c = false -> span p (c :: s) = ([], c :: s).
Proof. intros H. cbn [span]. now rewrite H. Qed.

Lemma find_first_Some {B} (f : jsstring -> option B) s r :
  find_first f s = Some r ->
  exists before rest, s = before ++ rest /\ f rest = Some r.
Proof.
  induction s as [|c s IH]; cbn [find_first]; intros H.
  - destruct (f []) eqn:E; [|discriminate]. inversion H; subst.
    exists [], []. split; [reflexivity | exact E].
  - destruct (f (c :: s)) eqn:E.
    + inversion H; subst. exists [], (c :: s). split; [reflexivity | exact E].
    + destruct (IH H) as (before & rest & -> & Hr).
      exists (c :: before), rest. split; [reflexivity | exact Hr].
Qed.

Lemma find_first_found {B} (f : jsstring -> option B) before rest :
  is_Some (f rest) -> is_Some (find_first f (before ++ rest)).
Proof.
  intros [r Hr]. induction before as [|c before IH]; cbn [app].
  - destruct rest; cbn [find_first]; rewrite Hr; eauto.
  - cbn [find_first]. destruct (f (c :: before ++ rest)); eauto.
Qed.

(** What the percent pattern captures: digits, possibly a point,
    possibly more digits; a percent sign follows. *)
Lemma percent_at_shape s token :
  percent_at s = Some token ->
  exists d1 dot d2 rest,
    token = d1 ++ dot ++ d2
    /\ s = token ++ 37 :: rest
    /\ d1 <> []
    /\ Forall (fun c => is_digit c = true) d1
    /\ (dot = [] \/ dot = [46])
    /\ Forall (fun c => is_digit c = true) d2.
Proof.
  unfold percent_at, then_, many1, many, optional.
  destruct (span is_digit s) as [d1 r1] eqn:E1.
  destruct (span_spec _ _ _ _ E1) as (-> & Hd1 & _).
  destruct d1 as [|c d1]; [discriminate|].
  set (dotm := match r1 with
               | [] => Some ([], r1)
               | c0 :: s' => if is_unit 46 c0 then Some ([c0], s') else Some ([], r1)
               end).
  assert (Hdot : exists dot r2, dotm = Some (dot, r2) /\ r1 = dot ++ r2
                                /\ (dot = [] \/ dot = [46])).
  { subst dotm. destruct r1 as [|x r1]; [exists [], []; auto|].
    unfold is_unit. destruct (46 =? x) eqn:Ex.
    - apply N.eqb_eq in Ex. subst x. exists [46], r1. auto.
    - exists [], (x :: r1). auto. }
  destruct Hdot as (dot & r2 & -> & -> & Hdot).
  destruct (span is_digit r2) as [d2 r3] eqn:E2.
  destruct (span_spec _ _ _ _ E2) as (-> & Hd2 & _).
  destruct r3 as [|y r3]; [discriminate|].
  unfold starts_with. cbn [js map list_ascii_of_string starts_with_by].
  intros H. destruct (N_of_ascii "%" =? y) eqn:Ey; [|discriminate].
  apply N.eqb_eq in Ey. inversion H; subst. clear H.
  exists (c :: d1), dot, d2, r3.
  repeat split; try assumption; try discriminate.
  - cbn [app]. now rewrite <- !app_assoc.
  - change (N_of_ascii "%") with 37. cbn [app]. now rewrite <- !app_assoc.
Qed.

Lemma percent_at_digit_percent d after :
  is_digit d = true ->
  starts_with (js "%") after = true \/ starts_with (js ".%") after = true ->
  is_Some (percent_at (d :: after)).
Proof.
  intros Hd Hafter.
  assert (Hpc : is_digit 37 = false) by reflexivity.
  assert (Hpt : is_digit 46 = false) by reflexivity.
  unfold percent_at, then_, many1, many, optional.
  cbn [span]. rewrite Hd.
  destruct Hafter as [H|H].
  - destruct after as [|x after]; [discriminate|].
    cbn in H. apply andb_true_iff in H as [H _]. apply N.eqb_eq in H. subst x.
    rewrite span_stop by exact Hpc. cbn. eauto.
  - destruct after as [|x [|y after]]; try discriminate.
    + cbn in H. now rewrite andb_false_r in H.
    + cbn in H. apply andb_true_iff in H as [H1 H2].
      apply andb_true_iff in H2 as [H2 _].
      apply N.eqb_eq in H1. apply N.eqb_eq in H2. subst x y.
      rewrite span_stop by exact Hpt. cbn. eauto.
Qed.

Lemma nonempty_last (l : jsstring) :
  l <> [] -> exists front x, l = front ++ [x].
Proof.
  destruct l as [|c l] using rev_ind; [congruence|]. intros _. eauto.
Qed.

Lemma match_percent_token line :
  is_Some (match_percent line) <-> has_percent_token line.
Proof.
  split.
  - intros [token H]. unfold match_percent in H.
    destruct (find_first_Some _ _ _ H) as (before & rest & -> & Hat).
    destruct (percent_at_shape _ _ Hat)
      as (d1 & dot & d2 & rest' & -> & -> & Hne & Hd1 & Hdot & Hd2).
    destruct (decide (d2 = [])) as [->|Hne2].
    + destruct (nonempty_last d1 Hne) as (front & x & ->).
      apply Forall_app in Hd1 as [_ Hx]. inversion Hx; subst.
      exists (before ++ front), x, (dot ++ 37 :: rest').
      split; [|split; [assumption|]].
      * rewrite app_nil_r, <- !app_assoc. reflexivity.
      * destruct Hdot as [->| ->]; [left | right]; reflexivity.
    + destruct (nonempty_last d2 Hne2) as (front & x & ->).
      apply Forall_app in Hd2 as [_ Hx]. inversion Hx; subst.
      exists (before ++ d1 ++ dot ++ front), x, (37 :: rest').
      split; [|split; [assumption | left; reflexivity]].
      rewrite <- !app_assoc. reflexivity.
  - intros (before & d & after & -> & Hd & Hafter).
    apply find_first_found. now apply percent_at_digit_percent.
Qed.

Lemma match_percent_head line token :
  match_percent line = Some token ->
  exists c rest, token = c :: rest /\ is_digit c = true.
Proof.
  intros H. destruct (find_first_Some _ _ _ H) as (before & rest & -> & Hat).
  destruct (percent_at_shape _ _ Hat)
    as (d1 & dot & d2 & rest' & -> & _ & Hne & Hd1 & _ & _).
  destruct Hd1 as [|c d1 Hc Hd1]; [congruence|].
  exists c, (d1 ++ dot ++ d2). split; [reflexivity | exact Hc].
Qed.

End Matching.

Section Readings.

Lemma parseFloat_digit_head c rest :
  is_digit c = true ->
  exists q, parseFloat (c :: rest) = Fin q /\ (0 <= q)%Q.
Proof.
  intros Hc. pose proof (digit_bounds c Hc) as Bc.
  unfold parseFloat. cbn [trim_start].
  rewrite (digit_not_space c Hc).
  replace (c =? 45) with false by (symmetry; apply N.eqb_neq; lia).
  replace (c =? 43) with false by (symmetry; apply N.eqb_neq; lia).
  cbn [span]. rewrite Hc.
  destruct (span is_digit rest) as [whole s3].
  cbn [app]. eexists. split; [reflexivity|].
  unfold Qle. cbn [Qnum Qden]. lia.
Qed.

Lemma updateProgress_percent line st :
  percent (updateProgress line st)
  = match match_percent line with
    | Some token => parseFloat token
    | None => percent st
    end.
Proof. unfold updateProgress. now destruct (match_percent line). Qed.

Lemma on_data_percent chunk st :
  percent (on_data chunk st)
  = match percent_reading (snd chunk) with
    | Some x => x
    | None => percent st
    end.
Proof.
  destruct chunk as [[|] data]; cbn [on_data snd];
    rewrite updateProgress_percent; unfold percent_reading;
    now destruct (match_percent data).
Qed.


Lemma consume_cons chunk chunks st :
  consume (chunk :: chunks) st = consume chunks (on_data chunk st).
Proof. reflexivity. Qed.




End Readings.

(** C6. Fed the line [[download]  42.5% of ~10.00MiB at 1.20MiB/s], the
    progress parser sets percent to 42.5 and the throughput label to
    1.20MiB/s, whatever its state was; a line with no percent token
    leaves percent, throughput and the started flag as they were; and
    the parser is total: after any line, percent is what it was or a
    number read from the line, never a failure. The same holds of the
    handler of the plain downloads. *)
Theorem updateProgress_reads_line :
  (forall st,
     let st' := updateProgress
                  (js "[download]  42.5% of ~10.00MiB at 1.20MiB/s") st in
     (exists q, percent st' = Fin q /\ (q == 42.5)%Q)
     /\ throughput st' = js "1.20MiB/s")
  /\ (forall line st,
        ~ has_percent_token line ->
        percent (updateProgress line st) = percent st
        /\ throughput (updateProgress line st) = throughput st
        /\ progressStarted (updateProgress line st) = progressStarted st)
  /\ (forall line st,
        percent (updateProgress line st) = percent st
        \/ exists q, percent (updateProgress line st) = Fin q)
  /\ (forall st,
        let st' := updateProgress_simple
                     (js "[download]  42.5% of ~10.00MiB at 1.20MiB/s") st in
        (exists q, percent st' = Fin q /\ (q == 42.5)%Q)
        /\ throughput st' = js "1.20MiB/s")
  /\ (forall line st,
        ~ has_percent_token line -> updateProgress_simple line st = st).
Proof.
  assert (Hnone : forall line, ~ has_percent_token line -> match_percent line = None).
  { intros line Hno. destruct (match_percent line) eqn:E; [|reflexivity].
    exfalso. apply Hno, match_percent_token. rewrite E. eauto. }
  split; [|split; [|split; [|split]]].
  - intros st. cbv zeta. split.
    + exists (425 # 10). split; reflexivity.
    + vm_compute. reflexivity.
  - intros line st Hno. unfold updateProgress. rewrite (Hnone line Hno).
    cbn. auto.
  - intros line st. rewrite updateProgress_percent.
    destruct (match_percent line) as [token|] eqn:E; [right | now left].
    destruct (match_percent_head _ _ E) as (c & rest & -> & Hc).
    destruct (parseFloat_digit_head c rest Hc) as (q & -> & _). eauto.
  - intros st. cbv zeta. split.
    + exists (425 # 10). split; reflexivity.
    + vm_compute. reflexivity.
  - intros line st Hno. unfold updateProgress_simple.
    now rewrite (Hnone line Hno).
Qed.

Lemma updateProgress_reads_line_witness :
  ~ has_percent_token (js "[Merger] Merging formats into clip.mp4")
  /\ percent (updateProgress (js "[Merger] Merging formats into clip.mp4")
                             initial_progress)
     = percent initial_progress.
Proof.
  assert (H : ~ has_percent_token (js "[Merger] Merging formats into clip.mp4")).
  { intros H. apply match_percent_token in H.
    vm_compute in H. destruct H as [x Hx]. discriminate Hx. }
  split; [exact H|].
  apply (proj1 (proj2 updateProgress_reads_line)), H.
Defined.




(** ** File system *)

Section Files.

Implicit Types fs : filesystem.
Implicit Types dir p : path.

Lemma within_refl dir : within dir dir = true.
Proof. unfold within. now rewrite bool_decide_eq_true_2. Qed.

Lemma within_neq dir p : within dir p = false -> p <> dir.
Proof. intros H ->. rewrite within_refl in H. discriminate. Qed.

Lemma rmSync_inside dir p fs : within dir p = true -> rmSync dir fs !! p = None.
Proof.
  intros H. unfold rmSync. apply map_lookup_filter_None. right.
  intros x _. cbn. congruence.
Qed.

Lemma rmSync_outside dir p fs :
  within dir p = false -> rmSync dir fs !! p = fs !! p.
Proof.
  intros H. unfold rmSync. destruct (fs !! p) as [x|] eqn:E.
  - apply map_lookup_filter_Some. split; [exact E | exact H].
  - apply map_lookup_filter_None. now left.
Qed.

Lemma ensureDir_exists dir fs : is_Some (ensureDir dir fs !! dir).
Proof.
  unfold ensureDir. destruct (fs !! dir) eqn:E; [rewrite E; eauto|].
  rewrite lookup_insert_eq. eauto.
Qed.

Lemma ensureDir_other dir p fs : p <> dir -> ensureDir dir fs !! p = fs !! p.
Proof.
  intros H. unfold ensureDir. destruct (fs !! dir); [reflexivity|].
  now rewrite lookup_insert_ne.
Qed.

Lemma ensureDir_keeps dir p fs : is_Some (fs !! p) -> is_Some (ensureDir dir fs !! p).
Proof.
  intros H. destruct (decide (p = dir)) as [->|Hne].
  - apply ensureDir_exists.
  - now rewrite ensureDir_other.
Qed.

Lemma write_into_at dir written fs :
  write_into dir written fs !! dir = Some (written ∪ default ∅ (fs !! dir)).
Proof. unfold write_into. apply lookup_insert_eq. Qed.

Lemma write_into_other dir p written fs :
  p <> dir -> write_into dir written fs !! p = fs !! p.
Proof. intros H. unfold write_into. now rewrite lookup_insert_ne. Qed.

Lemma before_spawn_output cfg now opts fs :
  is_Some (before_spawn cfg now opts fs !! output_dir cfg opts).
Proof. apply ensureDir_exists. Qed.

Lemma at_close_staging cfg now opts fs run :
  is_Some (at_close cfg now opts fs run !! downloadTempDir cfg now opts).
Proof. unfold at_close. rewrite write_into_at. eauto. Qed.

Lemma at_close_outside cfg now opts fs run p :
  within (downloadTempDir cfg now opts) p = false ->
  at_close cfg now opts fs run !! p = before_spawn cfg now opts fs !! p.
Proof.
  intros H. unfold at_close. apply write_into_other, (within_neq _ _ H).
Qed.

Lemma readdirSync_names dir fs names name :
  readdirSync dir fs = Some names -> name ∈ names ->
  exists held contents, fs !! dir = Some held /\ held !! name = Some contents.
Proof.
  unfold readdirSync. destruct (fs !! dir) as [held|]; [|discriminate].
  intros [= <-] Hin. apply list_elem_of_fmap in Hin as ([n c] & -> & Hin).
  apply elem_of_map_to_list in Hin. eauto.
Qed.

Lemma target_files_elem fmt names name :
  name ∈ target_files fmt names -> name ∈ names.
Proof.
  unfold target_files. rewrite !list_elem_of_In, filter_In. tauto.
Qed.

End Files.

Section Copying.

Implicit Types fs : filesystem.

Lemma copyFileSync_spec from to name fs contents :
  content_of fs from name = Some contents ->
  is_Some (fs !! to) ->
  exists fs',
    copyFileSync from to name fs = Some fs'
    /\ (forall p, p <> to -> fs' !! p = fs !! p)
    /\ is_Some (fs' !! to)
    /\ content_of fs' to name = Some contents
    /\ (forall f, f <> name -> content_of fs' to f = content_of fs to f)
    /\ (forall f, content_of fs' from f = content_of fs from f).
Proof.
  unfold content_of, copyFileSync.
  destruct (fs !! from) as [held|] eqn:Efrom; [|discriminate].
  intros Hname [target Eto]. rewrite Eto, Hname.
  eexists. split; [reflexivity|].
  split; [intros p Hp; now rewrite lookup_insert_ne|].
  rewrite lookup_insert_eq.
  split; [eauto|].
  split; [apply lookup_insert_eq|].
  split; [intros f Hf; now rewrite lookup_insert_ne|].
  intros f. destruct (decide (from = to)) as [->|Hne].
  - rewrite lookup_insert_eq. assert (held = target) by congruence. subst.
    destruct (decide (f = name)) as [->|Hf].
    + now rewrite lookup_insert_eq.
    + now rewrite lookup_insert_ne.
  - rewrite lookup_insert_ne by congruence. now rewrite Efrom.
Qed.

Lemma copy_targets_spec from to targetFiles fs :
  is_Some (fs !! to) ->
  (forall f, f ∈ targetFiles -> is_Some (content_of fs from f)) ->
  exists fs',
    copy_targets from to targetFiles fs = (fs', true)
    /\ (forall p, p <> to -> fs' !! p = fs !! p)
    /\ is_Some (fs' !! to)
    /\ (forall f, f ∈ targetFiles -> content_of fs' to f = content_of fs from f)
    /\ (forall f, f ∉ targetFiles -> content_of fs' to f = content_of fs to f)
    /\ (forall f, content_of fs' from f = content_of fs from f).
Proof.
  revert fs. induction targetFiles as [|name rest IH]; intros fs Hto Hall.
  - exists fs. cbn [copy_targets]. repeat split; auto.
    intros f Hf. inversion Hf.
  - destruct (Hall name ltac:(left)) as [contents Hname].
    destruct (copyFileSync_spec from to name fs contents Hname Hto)
      as (fs1 & Hcopy & Hother1 & Hto1 & Hat1 & Hrest1 & Hfrom1).
    destruct (IH fs1 Hto1) as (fs' & Hrun & Hother & Hto' & Hin & Hout & Hfrom).
    { intros f Hf. rewrite Hfrom1. apply Hall. now right. }
    exists fs'. cbn [copy_targets]. rewrite Hcopy.
    split; [exact Hrun|].
    split; [intros p Hp; now rewrite Hother, Hother1|].
    split; [exact Hto'|].
    split; [|split].
    + intros f Hf. destruct (decide (f ∈ rest)) as [Hr|Hr].
      * now rewrite Hin, Hfrom1.
      * apply elem_of_cons in Hf as [->|Hf]; [|contradiction].
        now rewrite Hout, Hat1.
    + intros f Hf. apply not_elem_of_cons in Hf as [Hne Hr].
      now rewrite Hout, Hrest1.
    + intros f. now rewrite Hfrom, Hfrom1.
Qed.

End Copying.

(** ** Single downloads *)

Section Download.

Context {World : Type}.
Variable spawn : list jsstring -> World -> ProcRun * World.
Variable clock : World -> N.

Implicit Types sys : Sys World.

(** The argument vector a download spawns the extractor with. *)
Local Abbreviation args_of cfg url opts sys :=
  (download_args cfg
     (before_spawn cfg (clock (world sys)) opts (files sys))
     (clock (world sys)) url opts).

Lemma download_unfold cfg url opts sys run w :
  spawn (args_of cfg url opts sys) (world sys) = (run, w) ->
  let now := clock (world sys) in
  let tmp := downloadTempDir cfg now opts in
  let out := output_dir cfg opts in
  let closing := at_close cfg now opts (files sys) run in
  let leave fs := {| world := w; files := fs;
                     spawned := spawned sys ++ [args_of cfg url opts sys] |} in
  let progress := consume (chunks run) initial_progress in
  downloadVideoWithProgress spawn clock cfg url opts sys
  = match ending run with
    | Closed code =>
        if bool_decide (code = Some 0%Z) then
          match readdirSync tmp closing with
          | Some names =>
              match copy_targets tmp out (target_files (format opts) names) closing with
              | (fs3, true) =>
                  (Resolved out, finish_bar progress, leave (rmSync tmp fs3))
              | (fs3, false) => (Resolved tmp, finish_bar progress, leave fs3)
              end
          | None => (Resolved tmp, finish_bar progress, leave closing)
          end
        else
          (Rejected (failure_message (errorOutput progress) code),
           finish_bar progress, leave (rmSync tmp closing))
    | LaunchError message =>
        (Rejected message, progress, leave (rmSync tmp closing))
    end.
Proof.
  intros Hspawn. cbv zeta.
  unfold downloadVideoWithProgress, run_process. cbn [world files spawned].
  rewrite Hspawn. reflexivity.
Qed.

Lemma download_spawns_once cfg url opts sys :
  spawned (downloadVideoWithProgress spawn clock cfg url opts sys).2
  = spawned sys ++ [args_of cfg url opts sys].
Proof.
  destruct (spawn (args_of cfg url opts sys) (world sys)) as [run w] eqn:E.
  rewrite (download_unfold _ _ _ _ _ _ E). cbv zeta.
  destruct (ending run) as [code|message]; [|reflexivity].
  destruct (bool_decide (code = Some 0%Z)); [|reflexivity].
  destruct (readdirSync _ _); [|reflexivity].
  destruct (copy_targets _ _ _ _) as [fs3 []]; reflexivity.
Qed.



End Download.



(** ** Batches *)

Section Batch.

Context {World : Type}.
Variable spawn : list jsstring -> World -> ProcRun * World.
Variable clock : World -> N.

Implicit Types sys : Sys World.

Lemma download_args_last cfg fs now url opts :
  last (download_args cfg fs now url opts) = Some url.
Proof. unfold download_args. now rewrite !app_assoc, last_snoc. Qed.

Lemma download_entry_spawned cfg fmt q folder video sys :
  exists args,
    spawned (download_entry spawn clock cfg fmt q folder video sys).2
    = spawned sys ++ [args]
    /\ last args = Some (entry_url video).
Proof.
  unfold download_entry. rewrite download_spawns_once.
  eexists. split; [reflexivity | apply download_args_last].
Qed.

Lemma download_each_tally cfg fmt q folder selected ok ko sys :
  let '(ok', ko', sys') :=
    download_each spawn clock cfg fmt q folder selected ok ko sys in
  (ok' + ko' = ok + ko + length selected)%nat
  /\ exists new,
       spawned sys' = spawned sys ++ new
       /\ map last new = map (fun video => Some (entry_url video)) selected.
Proof.
  revert ok ko sys. induction selected as [|video rest IH]; intros ok ko sys.
  - cbn. split; [lia|]. exists []. now rewrite app_nil_r.
  - cbn [download_each].
    destruct (download_entry_spawned cfg fmt q folder video sys)
      as (args & Hsp & Hlast).
    destruct (download_entry spawn clock cfg fmt q folder video sys)
      as [[[dir|message] progress] sys1]; cbn [snd] in Hsp.
    + specialize (IH (S ok) ko sys1).
      destruct (download_each _ _ _ _ _ _ rest (S ok) ko sys1) as [[ok' ko'] sys'].
      destruct IH as (Hsum & new & Hnew & Hmap).
      split; [cbn [length]; lia|].
      exists (args :: new). rewrite Hnew, Hsp, <- app_assoc.
      split; [reflexivity|]. cbn [map]. now rewrite Hlast, Hmap.
    + specialize (IH ok (S ko) sys1).
      destruct (download_each _ _ _ _ _ _ rest ok (S ko) sys1) as [[ok' ko'] sys'].
      destruct IH as (Hsum & new & Hnew & Hmap).
      split; [cbn [length]; lia|].
      exists (args :: new). rewrite Hnew, Hsp, <- app_assoc.
      split; [reflexivity|]. cbn [map]. now rewrite Hlast, Hmap.
Qed.

End Batch.

(** C5. The batch loop downloads the selected entries one after the
    other, in order, each exactly once, whatever the outcome of the ones
    before: the extractor is spawned once per entry with that entry's
    URL, and [successful + failed] is the number of selected entries.
    With three entries of which the first and third downloads resolve
    and the second rejects, the tally is successful 2, failed 1, and the
    third entry has been downloaded in the system the second left. *)
Theorem batch_tally {World : Type}
    (spawn : list jsstring -> World -> ProcRun * World) (clock : World -> N)
    (cfg : Config) (title : jsstring) (fmt : Format) (q : Quality)
    (sys : Sys World) :
  (forall selected,
     let '(result, sys') :=
       download_selected spawn clock cfg title fmt q selected sys in
     (successful result + failed result = length selected)%nat
     /\ exists new,
          spawned sys' = spawned sys ++ new
          /\ map last new = map (fun video => Some (entry_url video)) selected)
  /\ (forall v1 v2 v3,
        let folder := playlist_folder cfg title in
        let r1 := download_entry spawn clock cfg fmt q folder v1
                                 (with_folder cfg title sys) in
        let r2 := download_entry spawn clock cfg fmt q folder v2 r1.2 in
        let r3 := download_entry spawn clock cfg fmt q folder v3 r2.2 in
        succeeded r1.1.1 = true ->
        succeeded r2.1.1 = false ->
        succeeded r3.1.1 = true ->
        download_selected spawn clock cfg title fmt q [v1; v2; v3] sys
        = ({| successful := 2; failed := 1; location := folder |}, r3.2)).
Proof.
  split.
  - intros selected. unfold download_selected.
    pose proof (download_each_tally spawn clock cfg fmt q
                  (playlist_folder cfg title) selected 0 0
                  (with_folder cfg title sys)) as H.
    destruct (download_each _ _ _ _ _ _ selected 0%nat 0%nat _) as [[ok ko] sys'].
    cbn [successful failed]. exact H.
  - intros v1 v2 v3. cbv zeta. unfold download_selected. cbn [download_each].
    destruct (download_entry spawn clock cfg fmt q (playlist_folder cfg title) v1
                (with_folder cfg title sys)) as [[[d1|m1] p1] s1];
      cbn [fst snd succeeded]; [|discriminate]. intros _.
    destruct (download_entry spawn clock cfg fmt q (playlist_folder cfg title) v2 s1)
      as [[[d2|m2] p2] s2]; cbn [fst snd succeeded]; [discriminate|]. intros _.
    destruct (download_entry spawn clock cfg fmt q (playlist_folder cfg title) v3 s2)
      as [[[d3|m3] p3] s3]; cbn [fst snd succeeded]; [|discriminate]. intros _.
    reflexivity.
Qed.

Lemma batch_tally_witness :
  (download_selected scripted_spawn scripted_clock sample_config (js "Mix")
     Both Highest [sample_entry "a1"; sample_entry "b2"; sample_entry "c3"]
     (start_of [sample_run; sample_failure; sample_run] ∅)).1
  = {| successful := 2; failed := 1;
       location := js "/home/user/downloads/Mix" |}.
Proof.
  rewrite (proj2 (batch_tally scripted_spawn scripted_clock sample_config
                    (js "Mix") Both Highest
                    (start_of [sample_run; sample_failure; sample_run] ∅))
             (sample_entry "a1") (sample_entry "b2") (sample_entry "c3"));
    vm_compute; reflexivity.
Defined.

(** ** Metadata fetches and their retry *)

Section Fetch.

Context {World Info : Type}.
Variable spawn : list jsstring -> World -> ProcRun * World.
Variable JSON_parse : jsstring -> option Info.

Implicit Types sys : Sys World.

Lemma fetch_attempt_unfold args sys run w :
  spawn args (world sys) = (run, w) ->
  fetch_attempt spawn JSON_parse args sys
  = (match ending run with
     | Closed code =>
         if bool_decide (code = Some 0%Z)
            && bool_decide (stream_text Stdout run <> [])
         then match JSON_parse (stream_text Stdout run) with
              | Some info => Resolved info
              | None => Rejected (js "Failed to parse video info")
              end
         else Rejected (or_else (stream_text Stderr run)
                                (js "Failed to fetch video info"))
     | LaunchError message => Rejected message
     end,
     {| world := w; files := files sys; spawned := spawned sys ++ [args] |}).
Proof.
  intros H. unfold fetch_attempt, run_process. now rewrite H.
Qed.

Lemma fetch_attempt_spawned args sys :
  spawned (fetch_attempt spawn JSON_parse args sys).2 = spawned sys ++ [args].
Proof.
  destruct (spawn args (world sys)) as [run w] eqn:E.
  now rewrite (fetch_attempt_unfold _ _ _ _ E).
Qed.

Lemma fetch_attempt_success args sys run w info :
  spawn args (world sys) = (run, w) ->
  ending run = Closed (Some 0%Z) ->
  stream_text Stdout run <> [] ->
  JSON_parse (stream_text Stdout run) = Some info ->
  fetch_attempt spawn JSON_parse args sys
  = (Resolved info,
     {| world := w; files := files sys; spawned := spawned sys ++ [args] |}).
Proof.
  intros Hs He Hout Hparse. rewrite (fetch_attempt_unfold _ _ _ _ Hs), He.
  rewrite !bool_decide_eq_true_2 by (reflexivity || assumption).
  cbn [andb]. now rewrite Hparse.
Qed.

Lemma fetch_attempt_nonzero args sys run w code :
  spawn args (world sys) = (run, w) ->
  ending run = Closed code ->
  code <> Some 0%Z ->
  fetch_attempt spawn JSON_parse args sys
  = (Rejected (or_else (stream_text Stderr run) (js "Failed to fetch video info")),
     {| world := w; files := files sys; spawned := spawned sys ++ [args] |}).
Proof.
  intros Hs He Hcode. rewrite (fetch_attempt_unfold _ _ _ _ Hs), He.
  now rewrite bool_decide_eq_false_2.
Qed.

Lemma attempt_in_turn_spawned args later sys :
  exists new,
    spawned (attempt_in_turn spawn JSON_parse args later sys).2
    = spawned sys ++ new
    /\ (1 <= length new <= S (length later))%nat.
Proof.
  revert args sys. induction later as [|next later IH]; intros args sys;
    cbn [attempt_in_turn];
    pose proof (fetch_attempt_spawned args sys) as Hsp;
    destruct (fetch_attempt spawn JSON_parse args sys) as [[info|err] sys1];
    cbn [snd] in *.
  - exists [args]. split; [exact Hsp | cbn; lia].
  - exists [args]. split; [exact Hsp | cbn; lia].
  - exists [args]. split; [exact Hsp | cbn; lia].
  - destruct (IH next sys1) as (new & Hnew & Hlen).
    exists (args :: new). rewrite Hnew, Hsp, <- app_assoc.
    split; [reflexivity | cbn [length]; lia].
Qed.

Lemma attempt_in_turn_rejected args later sys message sys' :
  attempt_in_turn spawn JSON_parse args later sys = (Rejected message, sys') ->
  exists final before,
    last (args :: later) = Some final
    /\ fetch_attempt spawn JSON_parse final before = (Rejected message, sys').
Proof.
  revert args sys. induction later as [|next later IH]; intros args sys;
    cbn [attempt_in_turn];
    destruct (fetch_attempt spawn JSON_parse args sys) as [[info|err] sys1] eqn:E;
    intros H; try discriminate.
  - exists args, sys. split; [reflexivity|]. now rewrite E, H.
  - destruct (IH _ _ H) as (final & before & Hlast & Hfetch).
    exists final, before. split; [|exact Hfetch].
    now rewrite last_cons, Hlast.
Qed.

End Fetch.

(** C1 (as amended). [getVideoInfo] tries its two argument vectors in
    order. An attempt succeeds when the subprocess exits with zero and
    its non-empty output parses; a success ends the sequence at once.
    So when the first attempt exits nonzero and the second succeeds, the
    outcome is the parsed information after exactly 2 attempts; when the
    first succeeds there is 1 attempt; and there are never more than 2. A
    zero exit with empty or unparsable output is a failed attempt. *)
Theorem getVideoInfo_retry {World Info : Type}
    (spawn : list jsstring -> World -> ProcRun * World)
    (JSON_parse : jsstring -> option Info)
    (cfg : Config) (url : jsstring) (sys : Sys World) :
  let first := (video_info_attempts cfg (files sys) url).1 in
  let second := (video_info_attempts cfg (files sys) url).2 in
  (forall run1 w1 code1 run2 w2 info,
     spawn first (world sys) = (run1, w1) ->
     ending run1 = Closed code1 ->
     code1 <> Some 0%Z ->
     spawn second w1 = (run2, w2) ->
     ending run2 = Closed (Some 0%Z) ->
     stream_text Stdout run2 <> [] ->
     JSON_parse (stream_text Stdout run2) = Some info ->
     getVideoInfo spawn JSON_parse cfg url sys
     = (Resolved info,
        {| world := w2; files := files sys;
           spawned := spawned sys ++ [first; second] |}))
  /\ (forall run1 w1 info,
        spawn first (world sys) = (run1, w1) ->
        ending run1 = Closed (Some 0%Z) ->
        stream_text Stdout run1 <> [] ->
        JSON_parse (stream_text Stdout run1) = Some info ->
        getVideoInfo spawn JSON_parse cfg url sys
        = (Resolved info,
           {| world := w1; files := files sys;
              spawned := spawned sys ++ [first] |}))
  /\ (exists new,
        spawned (getVideoInfo spawn JSON_parse cfg url sys).2
        = spawned sys ++ new
        /\ (1 <= length new <= 2)%nat).
Proof.
  cbv zeta. unfold getVideoInfo.
  destruct (video_info_attempts cfg (files sys) url) as [first second].
  cbn [fst snd]. split; [|split].
  - intros run1 w1 code1 run2 w2 info Hs1 He1 Hc1 Hs2 He2 Hout Hparse.
    cbn [attempt_in_turn].
    rewrite (fetch_attempt_nonzero _ _ _ _ _ _ _ Hs1 He1 Hc1).
    rewrite (fetch_attempt_success spawn JSON_parse second _ run2 w2 info);
      try assumption.
    cbn [world files spawned]. now rewrite <- app_assoc.
  - intros run1 w1 info Hs1 He1 Hout Hparse.
    cbn [attempt_in_turn].
    now rewrite (fetch_attempt_success _ _ _ _ _ _ _ Hs1 He1 Hout Hparse).
  - apply (attempt_in_turn_spawned spawn JSON_parse first [second] sys).
Qed.

Lemma getVideoInfo_retry_witness :
  getVideoInfo scripted_spawn Some sample_config sample_url
    (start_of [silent_exit 1; sample_metadata] ∅)
  = (Resolved (js "{}"),
     {| world := []; files := ∅;
        spawned := [(video_info_attempts sample_config ∅ sample_url).1;
                    (video_info_attempts sample_config ∅ sample_url).2] |}).
Proof.
  apply (proj1 (getVideoInfo_retry scripted_spawn Some sample_config sample_url
                  (start_of [silent_exit 1; sample_metadata] ∅))
           (silent_exit 1) [sample_metadata] (Some 1%Z)
           sample_metadata [] (js "{}"));
    try reflexivity; discriminate.
Defined.

(** The first attempt exits with 1 and the second with 0, but the second
    prints nothing: [getVideoInfo] fails although its last subprocess
    exited with zero (and the parser here accepts every text). *)
Lemma getVideoInfo_zero_exit_without_output :
  ending (silent_exit 1) = Closed (Some 1%Z)
  /\ ending (silent_exit 0) = Closed (Some 0%Z)
  /\ (getVideoInfo scripted_spawn Some sample_config sample_url
        (start_of [silent_exit 1; silent_exit 0] ∅)).1
     = Rejected (js "Failed to fetch video info")
  /\ length (spawned (getVideoInfo scripted_spawn Some sample_config sample_url
                        (start_of [silent_exit 1; silent_exit 0] ∅)).2) = 2%nat.
Proof. repeat split; vm_compute; reflexivity. Qed.

(** ** Failure messages *)

Section Messages.

Lemma updateProgress_errorOutput line st :
  errorOutput (updateProgress line st) = errorOutput st.
Proof. unfold updateProgress. now destruct (match_percent line). Qed.

Lemma consume_errorOutput chunks st :
  errorOutput (consume chunks st)
  = errorOutput st
    ++ concat (omap (fun chunk : Stream * jsstring =>
                       match chunk.1 with
                       | Stderr => Some chunk.2
                       | Stdout => None
                       end) chunks).
Proof.
  revert st. induction chunks as [|[[|] data] chunks IH]; intros st.
  - cbn. now rewrite app_nil_r.
  - rewrite consume_cons, IH. cbn [on_data omap list_omap fst].
    now rewrite updateProgress_errorOutput.
  - rewrite consume_cons, IH. cbn [on_data omap list_omap fst snd concat].
    rewrite updateProgress_errorOutput. cbn [errorOutput].
    now rewrite app_assoc.
Qed.

Lemma errorOutput_of_run run :
  errorOutput (consume (chunks run) initial_progress) = stream_text Stderr run.
Proof. now rewrite consume_errorOutput. Qed.

End Messages.

Example match_error_sample :
  match_error (js "WARNING: slow" ++ [10] ++ js "ERROR:  Video unavailable " ++ [10]
               ++ js "ERROR: second")
  = Some (js "Video unavailable ").
Proof. vm_compute. reflexivity. Qed.

Example match_error_blank : match_error (js "error: " ++ [10]) = Some (js " ").
Proof. vm_compute. reflexivity. Qed.

(** C7 (as amended). When every attempt of a sequence has failed, the
    error surfaced is the one of the last attempt, and nothing of the
    earlier ones. For a download that exits nonzero the message is the
    text the error pattern captures in the accumulated error stream,
    trimmed, and [Download failed with code N] when the pattern does
    not match. For a metadata fetch that exits nonzero, the one sequence
    with a second attempt, the message is the whole accumulated error
    stream, and [Failed to fetch video info] when that is empty. *)
Theorem exhausted_failure_message {World Info : Type}
    (spawn : list jsstring -> World -> ProcRun * World) (clock : World -> N)
    (JSON_parse : jsstring -> option Info) :
  (forall args later (sys : Sys World) message sys',
     attempt_in_turn spawn JSON_parse args later sys = (Rejected message, sys') ->
     exists final before,
       last (args :: later) = Some final
       /\ fetch_attempt spawn JSON_parse final before = (Rejected message, sys'))
  /\ (forall args (sys : Sys World) run w code,
        spawn args (world sys) = (run, w) ->
        ending run = Closed code ->
        code <> Some 0%Z ->
        (fetch_attempt spawn JSON_parse args sys).1
        = Rejected (or_else (stream_text Stderr run)
                            (js "Failed to fetch video info")))
  /\ (forall cfg url opts (sys : Sys World) run w code,
        spawn (download_args cfg
                 (before_spawn cfg (clock (world sys)) opts (files sys))
                 (clock (world sys)) url opts) (world sys) = (run, w) ->
        ending run = Closed code ->
        code <> Some 0%Z ->
        (downloadVideoWithProgress spawn clock cfg url opts sys).1.1
        = Rejected
            match match_error (stream_text Stderr run) with
            | Some captured => trim captured
            | None => js "Download failed with code " ++ code_text code
            end).
Proof.
  split; [|split].
  - apply attempt_in_turn_rejected.
  - intros args sys run w code Hs He Hc.
    now rewrite (fetch_attempt_nonzero _ _ _ _ _ _ _ Hs He Hc).
  - intros cfg url opts sys run w code Hs He Hc.
    rewrite (download_unfold _ _ _ _ _ _ _ _ Hs). cbv zeta.
    rewrite He, bool_decide_eq_false_2 by exact Hc.
    cbn [fst]. now rewrite errorOutput_of_run.
Qed.

Lemma exhausted_failure_message_witness :
  (downloadVideoWithProgress scripted_spawn scripted_clock
     sample_config sample_url sample_options (start_of [sample_failure] ∅)).1.1
  = Rejected (js "Video unavailable").
Proof.
  rewrite (proj2 (proj2 (exhausted_failure_message (Info := jsstring)
                           scripted_spawn scripted_clock Some))
             sample_config sample_url sample_options
             (start_of [sample_failure] ∅) sample_failure [] (Some 1%Z)
             eq_refl eq_refl ltac:(discriminate)).
  vm_compute. reflexivity.
Defined.

(** Both attempts of a metadata fetch exit with 1 after printing an
    error line: the message surfaced is the whole error stream of the
    second attempt, not the text the error pattern captures in it. *)
Lemma getVideoInfo_message_is_whole_stderr :
  (getVideoInfo scripted_spawn Some sample_config sample_url
     (start_of [sample_failure; sample_failure] ∅)).1
  = Rejected (stream_text Stderr sample_failure)
  /\ trim <$> match_error (stream_text Stderr sample_failure)
     = Some (js "Video unavailable")
  /\ stream_text Stderr sample_failure <> js "Video unavailable".
Proof.
  split; [vm_compute; reflexivity|].
  split; [vm_compute; reflexivity|].
  vm_compute. discriminate.
Qed.

(** ** Argument builder *)

(** C8 (as amended). The argument vector is a function of the request
    and of two pieces of ambient state: whether the cookies file exists,
    and, for a request without an item identifier, the clock reading
    that names the staging directory. Two invocations with the same
    request produce identical vectors whenever the cookies file is
    present at both or absent at both, and the request carries an
    identifier or the clock readings agree. *)
Theorem download_args_determined (cfg : Config) (fs1 fs2 : filesystem)
    (now1 now2 : N) (url : jsstring) (opts : DownloadOptions) :
  (forall file, cookiesFile cfg = Some file ->
                existsSync fs1 file = existsSync fs2 file) ->
  (exists id, videoId opts = Some id /\ id <> []) \/ now1 = now2 ->
  download_args cfg fs1 now1 url opts = download_args cfg fs2 now2 url opts.
Proof.
  intros Hcookie Hid. unfold download_args.
  assert (Hc : cookie_args cfg fs1 = cookie_args cfg fs2).
  { unfold cookie_args. destruct (cookiesFile cfg) as [file|]; [|reflexivity].
    destruct file; [reflexivity|]. now rewrite (Hcookie _ eq_refl). }
  assert (Ht : downloadTempDir cfg now1 opts = downloadTempDir cfg now2 opts).
  { destruct Hid as [(id & Hid & Hne)| ->]; [|reflexivity].
    unfold downloadTempDir. rewrite Hid. cbn [default].
    destruct id; [congruence | reflexivity]. }
  now rewrite Hc, Ht.
Qed.

Lemma download_args_determined_witness :
  download_args cookie_config cookie_files 1700000000000 sample_url sample_options
  = download_args cookie_config (ensureDir (js "/srv") cookie_files)
      1700000000999 sample_url sample_options.
Proof.
  apply download_args_determined.
  - intros file [= <-]. vm_compute. reflexivity.
  - left. exists (js "abc123"). split; [reflexivity | discriminate].
Defined.

(** The same request without an identifier, at two clock readings: the
    output templates name different staging directories. *)
Lemma download_args_follow_clock :
  download_args sample_config ∅ 1700000000000 sample_url anonymous_options
  <> download_args sample_config ∅ 1700000000001 sample_url anonymous_options.
Proof. vm_compute. discriminate. Qed.

(** * Further properties *)

(** ** Filename sanitizer, continued *)

Section SanitizerShape.

Lemma remove_class_excludes p s :
  Forall (fun c => p c = false) (remove_class p s).
Proof.
  induction s as [|c s IH]; cbn; [constructor|].
  destruct (p c) eqn:E; cbn; [exact IH | constructor; assumption].
Qed.

Lemma replace_runs_space_with (P : N -> Prop) b s :
  P underscore -> Forall P s ->
  Forall (fun c => P c /\ is_space c = false)
         (replace_runs_from is_space underscore b s).
Proof.
  intros Hu H. revert b.
  induction H as [|c s Hc Hs IH]; intros b; cbn; [constructor|].
  destruct (is_space c) eqn:E.
  - destruct b; [apply IH|]. constructor; [split; [exact Hu | reflexivity] | apply IH].
  - constructor; [split; assumption | apply IH].
Qed.

Lemma visible_of_parts c :
  is_control c = false -> is_non_ascii c = false -> is_space c = false ->
  is_visible_ascii c = true.
Proof.
  unfold is_control, is_non_ascii, is_space, is_visible_ascii.
  intros Hc Ha Hs.
  apply orb_false_iff in Hc as [Hc1 Hc2].
  apply N.leb_gt in Hc1. apply N.ltb_ge in Ha.
  repeat (apply orb_false_iff in Hs as [Hs ?]).
  assert (c <> 32) by now apply N.eqb_neq.
  assert (c <> 127).
  { intros ->. cbn in Hc2. discriminate. }
  apply andb_true_iff. split; apply N.leb_le; lia.
Qed.

Lemma no_adjacent_cons c a b s :
  no_adjacent c (a :: b :: s)
  = negb ((a =? c) && (b =? c)) && no_adjacent c (b :: s).
Proof. reflexivity. Qed.

Lemma collapse_head b s :
  head (replace_runs_from (N.eqb underscore) underscore true s) <> Some underscore
  /\ no_adjacent underscore
       (replace_runs_from (N.eqb underscore) underscore b s) = true.
Proof.
  revert b. induction s as [|c s IH]; intros b; [split; [discriminate | reflexivity]|].
  cbn [replace_runs_from].
  destruct (underscore =? c) eqn:E.
  - split; [apply (IH true)|].
    destruct b; [apply (IH true)|].
    destruct (IH true) as [Hh Hn].
    destruct (replace_runs_from (N.eqb underscore) underscore true s) as [|d t] eqn:Et;
      [reflexivity|].
    rewrite no_adjacent_cons, Hn, andb_true_r.
    destruct (d =? underscore) eqn:Ed; [|now rewrite andb_false_r].
    apply N.eqb_eq in Ed. subst d. cbn in Hh. congruence.
  - assert (Hc : (c =? underscore) = false) by (rewrite N.eqb_sym; exact E).
    split; [cbn; intros [= ->]; now rewrite N.eqb_refl in Hc|].
    destruct (IH false) as [_ Hn].
    destruct (replace_runs_from (N.eqb underscore) underscore false s) as [|d t];
      [reflexivity|].
    now rewrite no_adjacent_cons, Hn, Hc.
Qed.

Lemma no_adjacent_tail c a s :
  no_adjacent c (a :: s) = true -> no_adjacent c s = true.
Proof.
  destruct s as [|b s]; [reflexivity|]. cbn [no_adjacent].
  intros H. now apply andb_true_iff in H as [_ H].
Qed.

Lemma no_adjacent_take c n s :
  no_adjacent c s = true -> no_adjacent c (take n s) = true.
Proof.
  revert n. induction s as [|a s IH]; intros n H; [now destruct n|].
  destruct n as [|n]; [reflexivity|]. cbn [take].
  pose proof (IH n (no_adjacent_tail _ _ _ H)) as Ht.
  destruct s as [|b s]; [now destruct n|].
  destruct n as [|n]; [reflexivity|].
  cbn [take] in *. rewrite no_adjacent_cons in *.
  apply andb_true_iff in H as [H _].
  now rewrite H, Ht.
Qed.

Lemma drop_last_if_take p s : exists n, drop_last_if p s = take n s.
Proof.
  induction s as [|a s [n IH]]; [exists O; reflexivity|].
  destruct s as [|b s].
  - cbn. destruct (p a); [exists O | exists 1%nat]; reflexivity.
  - exists (S n). cbn [drop_last_if take]. now rewrite <- IH.
Qed.

Lemma head_take {A} n (s : list A) x :
  head (take n s) = Some x -> head s = Some x.
Proof. destruct n, s; cbn; congruence. Qed.

End SanitizerShape.

(** X1. With [asciiOnly] set, as for playlist folders, every unit of a
    sanitized name is a printable ASCII character other than the space
    (code 33 to 126): control characters, white space and everything
    beyond ASCII are gone. *)
Theorem sanitizeFilename_ascii (filename : jsstring) :
  Forall (fun c => is_visible_ascii c = true) (sanitizeFilename filename true).
Proof.
  unfold sanitizeFilename. apply or_else_Forall; [|vm_compute; repeat constructor].
  unfold sanitized_text, substring0.
  apply Forall_take, trim_Forall, strip_edge_Forall.
  apply replace_runs_Forall; [reflexivity|].
  eapply Forall_impl.
  - apply (replace_runs_space_with
             (fun c => is_control c = false /\ is_non_ascii c = false)).
    + split; reflexivity.
    + apply Forall_and. split.
      * apply remove_class_Forall, remove_class_excludes.
      * apply remove_class_excludes.
  - intros c [[Hc Ha] Hs]. now apply visible_of_parts.
Qed.

(** X2. A sanitized name never begins with an underscore and never has
    two underscores in a row, whatever the input and the mode. (It can
    end with one, when the cut at 150 units falls behind it.) *)
Theorem sanitizeFilename_underscores (filename : jsstring) (asciiOnly : bool) :
  head (sanitizeFilename filename asciiOnly) <> Some underscore
  /\ no_adjacent underscore (sanitizeFilename filename asciiOnly) = true.
Proof.
  unfold sanitizeFilename.
  set (body := replace_runs is_space underscore
                 (let result := remove_class is_control
                                  (replace_class is_forbidden underscore filename) in
                  if asciiOnly then remove_class is_non_ascii result else result)).
  assert (Hbody : Forall (fun c => is_space c = false) body).
  { eapply Forall_impl.
    - apply (replace_runs_space_with (fun _ => True)); [exact I|].
      now apply Forall_true.
    - now intros c [_ H]. }
  set (collapsed := replace_runs (N.eqb underscore) underscore body).
  assert (Hspace : Forall (fun c => is_space c = false) collapsed)
    by (apply replace_runs_Forall; [reflexivity | exact Hbody]).
  destruct (collapse_head false body) as [_ Hadj]. fold (replace_runs (N.eqb underscore) underscore body) in Hadj.
  fold collapsed in Hadj.
  assert (Hstrip : head (strip_edge_underscores collapsed) <> Some underscore
                   /\ no_adjacent underscore (strip_edge_underscores collapsed) = true).
  { unfold strip_edge_underscores.
    set (s1 := match collapsed with
               | [] => []
               | c :: s' => if c =? underscore then s' else collapsed
               end).
    assert (H1 : head s1 <> Some underscore /\ no_adjacent underscore s1 = true).
    { subst s1. destruct collapsed as [|c s']; [split; [discriminate | reflexivity]|].
      destruct (c =? underscore) eqn:Ec.
      - split; [|now apply no_adjacent_tail in Hadj].
        destruct s' as [|d s'']; [discriminate|].
        rewrite no_adjacent_cons, Ec in Hadj.
        apply andb_true_iff in Hadj as [Hd _].
        cbn. intros [= ->]. now rewrite N.eqb_refl in Hd.
      - split; [|exact Hadj]. cbn. intros [= ->]. now rewrite N.eqb_refl in Ec. }
    destruct (drop_last_if_take (N.eqb underscore) s1) as [n ->].
    destruct H1 as [Hh Hn]. split; [|now apply no_adjacent_take].
    intros H. now apply head_take in H. }
  fold body collapsed.
  assert (Htext : sanitized_text filename asciiOnly
                  = take 150 (strip_edge_underscores collapsed)).
  { unfold sanitized_text, substring0. fold body. fold collapsed.
    now rewrite trim_id by now apply strip_edge_Forall. }
  rewrite Htext. destruct Hstrip as [Hh Hn].
  destruct (take 150 (strip_edge_underscores collapsed)) as [|c t] eqn:Et.
  - cbn [or_else]. split; [vm_compute; discriminate | vm_compute; reflexivity].
  - cbn [or_else]. rewrite <- Et. split; [|now apply no_adjacent_take].
    intros H. now apply head_take in H.
Qed.

(** The sanitizer of the first iteration only replaces the illegal
    characters and cuts at 200 units: its result has the length of the
    input capped at 200, holds none of the illegal characters, and is
    empty exactly when the input is (there is no fallback name). *)
Theorem sanitizeFilename_v1_shape (filename : jsstring) :
  length (sanitizeFilename_v1 filename) = Nat.min 200 (length filename)
  /\ Forall (fun c => is_forbidden c = false) (sanitizeFilename_v1 filename)
  /\ (sanitizeFilename_v1 filename = [] <-> filename = []).
Proof.
  unfold sanitizeFilename_v1, substring0, replace_class.
  split; [now rewrite length_take, length_map|].
  split; [apply Forall_take, replace_class_forbidden|].
  destruct filename; [tauto|]. cbn. split; discriminate.
Qed.

(** ** Durations *)

Example formatDuration_samples :
  map formatDuration [Some (Num 3725); Some (Num 59); Some (Num 600); Some (Num 0);
                      None; Some NaN; Some (Num 86400)]
  = [js "1:02:05"; js "0:59"; js "10:00"; js "Unknown"; js "Unknown";
     js "Unknown"; js "24:00:00"].
Proof. vm_compute. reflexivity. Qed.

Section Durations.






End Durations.



(** ** Range selection, continued *)

Section SelectionBounds.

Context {A : Type}.
Implicit Types items : list A.

Lemma slice_segment items start end_ :
  exists i k, slice items start end_ = take k (drop i items).
Proof. unfold slice. eauto. Qed.

Lemma index_elem items i x : index items i = Some x -> x ∈ items.
Proof.
  unfold index. destruct i as [|z]; [discriminate|].
  destruct (z <? 0)%Z; [discriminate|].
  intros H. apply list_elem_of_lookup. eauto.
Qed.

End SelectionBounds.

(** X4. Whatever the user types as a range, only entries of the playlist
    are selected; and a text with a dash selects one unbroken run of the
    playlist, in playlist order, so never more entries than there are. *)
Theorem range_selection_within {A} (rangeInput : jsstring) (items : list A) :
  (forall x, x ∈ range_selection rangeInput items -> x ∈ items)
  /\ (includes rangeInput (js "-") = true ->
      (exists i k, range_selection rangeInput items = take k (drop i items))
      /\ (length (range_selection rangeInput items) <= length items)%nat).
Proof.
  unfold range_selection. destruct (includes rangeInput (js "-")).
  - set (parts := map (fun n => parseInt (trim n)) (split_on 45 rangeInput)).
    destruct (slice_segment items (pred_number (default NaN (parts !! 0%nat)))
                            (parts !! 1%nat)) as (i & k & ->).
    split.
    + intros x Hx. now apply subseteq_take, subseteq_drop in Hx.
    + intros _. split; [eauto|]. rewrite length_take, length_drop. lia.
  - split; [|discriminate].
    intros x Hx. apply list_elem_of_omap in Hx as (i & _ & Hi).
    now apply index_elem in Hi.
Qed.

Lemma range_selection_within_witness :
  includes (js "3-") (js "-") = true
  /\ (length (range_selection (js "3-") (seq 1 10)) <= length (seq 1 10))%nat.
Proof.
  split; [vm_compute; reflexivity|].
  apply (proj2 (range_selection_within (js "3-") (seq 1 10))).
  vm_compute. reflexivity.
Defined.

Section PaddedNumerals.

Lemma trim_start_blank w s :
  Forall (fun c => is_space c = true) w -> trim_start (w ++ s) = trim_start s.
Proof. induction 1 as [|c w Hc Hw IH]; cbn; [reflexivity | now rewrite Hc]. Qed.

Lemma trim_start_blank_only w :
  Forall (fun c => is_space c = true) w -> trim_start w = [].
Proof.
  intros H. rewrite <- (app_nil_r w), trim_start_blank by exact H. reflexivity.
Qed.

Lemma trim_padded w1 d w2 :
  Forall (fun c => is_space c = true) w1 ->
  Forall (fun c => is_space c = true) w2 ->
  Forall (fun c => is_space c = false) d ->
  trim (w1 ++ d ++ w2) = d.
Proof.
  intros H1 H2 Hd. unfold trim, trim_end.
  rewrite trim_start_blank by exact H1.
  destruct d as [|c d].
  - cbn [app]. rewrite (trim_start_blank_only w2 H2). reflexivity.
  - inversion Hd as [|? ? Hc Hd']; subst.
    cbn [app trim_start]. rewrite Hc.
    change (c :: d ++ w2) with ((c :: d) ++ w2).
    rewrite rev_app_distr, trim_start_blank by now apply Forall_rev.
    rewrite trim_start_id by now apply Forall_rev.
    apply rev_involutive.
Qed.

Lemma parseInt_padded piece :
  blank_padding piece ->
  parseInt (trim (padded_numeral piece)) = Num (Z.of_nat piece.1.2).
Proof.
  intros [H1 H2]. unfold padded_numeral.
  rewrite trim_padded; try assumption.
  - rewrite <- (parseInt_numeral piece.1.2).
    now rewrite trim_id by apply digits_no_space, numeral_digits.
  - apply digits_no_space, numeral_digits.
Qed.

Lemma blank_avoid sep w :
  is_space sep = false ->
  Forall (fun c => is_space c = true) w -> Forall (fun c => c <> sep) w.
Proof.
  intros Hsep H. eapply Forall_impl; [exact H|]. intros c Hc ->. congruence.
Qed.

Lemma padded_avoid sep piece :
  is_space sep = false -> is_digit sep = false ->
  blank_padding piece -> Forall (fun c => c <> sep) (padded_numeral piece).
Proof.
  intros Hs Hd [H1 H2]. unfold padded_numeral.
  rewrite !Forall_app. repeat split.
  - now apply blank_avoid.
  - now apply numeral_avoid.
  - now apply blank_avoid.
Qed.

End PaddedNumerals.

(** X5. Blanks around the numbers of a range do not matter: with white
    space before and after each numeral, a comma-separated list selects
    the listed positions, and [A - B] with 1 <= A selects what [A-B]
    selects. *)
Theorem range_selection_blanks {A} (items : list A) :
  (forall pieces,
     Forall blank_padding pieces ->
     range_selection (join_with 44 (map padded_numeral pieces)) items
     = at_positions items (map (fun piece => piece.1.2) pieces))
  /\ (forall first second,
        blank_padding first -> blank_padding second ->
        range_selection (padded_numeral first ++ js "-" ++ padded_numeral second)
                        items
        = range_selection (numeral first.1.2 ++ js "-" ++ numeral second.1.2)
                          items).
Proof.
  split.
  - intros pieces Hall.
    assert (Hparts : forall sep, is_space sep = false -> is_digit sep = false ->
              Forall (Forall (fun c => c <> sep)) (map padded_numeral pieces)).
    { intros sep Hs Hd. apply Forall_map. eapply Forall_impl; [exact Hall|].
      intros piece Hp. now apply padded_avoid. }
    unfold range_selection. change (js "-") with [45].
    rewrite includes_single.
    rewrite existsb_absent
      by (apply join_avoid; [discriminate | now apply Hparts]).
    destruct pieces as [|p ps]; [reflexivity|].
    rewrite split_on_join by (now apply Hparts || discriminate).
    clear Hparts. unfold at_positions.
    induction Hall as [|q qs Hq Hqs IH]; [reflexivity|].
    cbn [map omap list_omap].
    now rewrite IH, parseInt_padded, index_position.
  - intros first second H1 H2.
    rewrite range_selection_dash.
    unfold range_selection. rewrite includes_dash_range.
    change (js "-") with [45]. cbn [app].
    rewrite split_on_app by now apply padded_avoid.
    rewrite split_on_absent by now apply padded_avoid.
    cbn [map lookup list_lookup default].
    now rewrite !parseInt_padded.
Qed.

Lemma range_selection_blanks_witness :
  range_selection (js "1, 3 ,50") (seq 1 10) = at_positions (seq 1 10) [1; 3; 50]%nat.
Proof.
  apply (proj1 (range_selection_blanks (seq 1 10))
           [([], 1%nat, []); (js " ", 3%nat, js " "); ([], 50%nat, [])]).
  repeat constructor.
Defined.

(** ** Failure messages, continued *)

Section MessageShape.

Lemma trim_start_head s c t : trim_start s = c :: t -> is_space c = false.
Proof.
  induction s as [|d s IH]; cbn; [discriminate|].
  destruct (is_space d) eqn:E; [exact IH|]. now intros [= <- <-].
Qed.

Lemma trim_start_keeps_last l d :
  is_space d = false -> exists l', trim_start (l ++ [d]) = l' ++ [d].
Proof.
  intros Hd. induction l as [|x l [l' IH]]; cbn [app trim_start].
  - rewrite Hd. now exists [].
  - destruct (is_space x); [now exists l'|]. now exists (x :: l).
Qed.

Lemma trim_head s c : head (trim s) = Some c -> is_space c = false.
Proof.
  unfold trim, trim_end.
  destruct (trim_start s) as [|d t] eqn:E; [discriminate|].
  pose proof (trim_start_head _ _ _ E) as Hd.
  cbn [rev]. destruct (trim_start_keeps_last (rev t) d Hd) as [l' ->].
  rewrite rev_app_distr. cbn. now intros [= <-].
Qed.

Lemma trim_last s c : last (trim s) = Some c -> is_space c = false.
Proof.
  unfold trim, trim_end.
  destruct (trim_start (rev (trim_start s))) as [|d t] eqn:E; [discriminate|].
  cbn [rev]. rewrite last_snoc. intros [= <-]. now apply trim_start_head in E.
Qed.

Lemma error_at_single_line s captured :
  error_at s = Some captured ->
  Forall (fun c => is_line_terminator c = false) captured.
Proof.
  unfold error_at. destruct (starts_with_by eq_ci (js "ERROR:") s); [|discriminate].
  destruct (span is_space (drop 6 s)) as [blank rest].
  destruct (span (fun c => negb (is_line_terminator c)) rest) as [taken left] eqn:E.
  destruct (span_spec _ _ _ _ E) as (_ & Ht & _). cbn [fst].
  destruct taken as [|c taken].
  - destruct (List.filter (fun c => negb (is_line_terminator c)) blank) as [|k kept] eqn:Ek;
      [discriminate|].
    destruct (last (k :: kept)) as [c|] eqn:El; [|discriminate].
    intros [= <-]. constructor; [|constructor].
    assert (Hin : In c (List.filter (fun c => negb (is_line_terminator c)) blank)).
    { rewrite Ek. apply list_elem_of_In, list_elem_of_lookup.
      rewrite last_lookup in El. eauto. }
    apply filter_In in Hin as [_ Hc]. now apply negb_true_iff.
  - intros [= <-]. eapply Forall_impl; [exact Ht|].
    intros x Hx. now apply negb_true_iff.
Qed.

Lemma digit_not_terminator c : is_digit c = true -> is_line_terminator c = false.
Proof.
  intros H. apply digit_bounds in H. unfold is_line_terminator.
  repeat (apply orb_false_iff; split); apply N.eqb_neq; lia.
Qed.

Lemma code_text_shape code :
  Forall (fun c => is_line_terminator c = false) (code_text code)
  /\ (forall c, last (code_text code) = Some c -> is_space c = false).
Proof.
  assert (Hnum : forall n,
            Forall (fun c => is_line_terminator c = false) (N_toString n)
            /\ (forall c, last (N_toString n) = Some c -> is_space c = false)).
  { intros n. pose proof (N_toString_digits n) as Hd. split.
    - eapply Forall_impl; [exact Hd | exact digit_not_terminator].
    - intros c Hc. apply digit_not_space.
      rewrite Forall_forall in Hd. apply Hd.
      apply list_elem_of_lookup. rewrite last_lookup in Hc. eauto. }
  destruct code as [[|p|p]|]; cbn [code_text number_toString].
  - apply (Hnum (Z.to_N 0)).
  - apply (Hnum (Z.to_N (Z.pos p))).
  - destruct (Hnum (N.pos p)) as [H1 H2]. split; [constructor; [reflexivity | exact H1]|].
    intros c Hc. apply H2.
    pose proof (N_toString_nonempty (N.pos p)) as Hne.
    destruct (N_toString (N.pos p)); [contradiction|].
    now rewrite last_cons_cons in Hc.
  - split; [vm_compute; repeat constructor|].
    vm_compute. intros c [= <-]. reflexivity.
Qed.

End MessageShape.

(** X6. The message a failed download rejects with is always a single
    line without blanks at either end, whatever the process wrote on its
    error stream: it holds no line terminator, and neither its first nor
    its last character is white space. *)
Theorem failure_message_single_line (errorOutput : jsstring) (code : option Z) :
  Forall (fun c => is_line_terminator c = false) (failure_message errorOutput code)
  /\ (forall c, head (failure_message errorOutput code) = Some c ->
                is_space c = false)
  /\ (forall c, last (failure_message errorOutput code) = Some c ->
                is_space c = false).
Proof.
  unfold failure_message.
  destruct (match_error errorOutput) as [captured|] eqn:E.
  - split; [|split].
    + apply trim_Forall. unfold match_error in E.
      destruct (find_first_Some _ _ _ E) as (before & rest & _ & Hat).
      now apply error_at_single_line in Hat.
    + apply trim_head.
    + apply trim_last.
  - destruct (code_text_shape code) as [Hline Hlast].
    split; [|split].
    + apply Forall_app. split; [vm_compute; repeat constructor | exact Hline].
    + vm_compute. intros c [= <-]. reflexivity.
    + intros c Hc. apply Hlast.
      assert (Hne : code_text code <> []).
      { destruct code as [[|p|p]|]; cbn; try discriminate;
          apply N_toString_nonempty. }
      destruct (code_text code) as [|x t] using rev_ind; [contradiction|].
      rewrite app_assoc, last_snoc in Hc. now rewrite last_snoc.
Qed.

(** ** Progress tracking, continued *)

Section LastReading.

Lemma on_data_started chunk st :
  progressStarted (on_data chunk st)
  = progressStarted st || bool_decide (is_Some (percent_reading chunk.2)).
Proof.
  destruct chunk as [[|] data]; cbn [on_data snd]; unfold updateProgress,
    percent_reading; destruct (match_percent data); cbn;
    now rewrite ?orb_true_r, ?orb_false_r.
Qed.

Lemma readings_cons chunk chunks :
  readings (chunk :: chunks)
  = match percent_reading chunk.2 with
    | Some x => x :: readings chunks
    | None => readings chunks
    end.
Proof. reflexivity. Qed.

End LastReading.

(** X7. After any sequence of chunks the bar shows the reading of the
    last chunk that carried a percent token, whether it is above or
    below the one before, and it has been started exactly when some
    chunk carried one. A run that prints no percentage leaves the bar
    unstarted at 0, and the close handler then does not set it to 100. *)
Theorem consume_shows_last_reading (chunks : list (Stream * jsstring))
    (st : Progress) :
  percent (consume chunks st) = default (percent st) (last (readings chunks))
  /\ progressStarted (consume chunks st)
     = progressStarted st || bool_decide (readings chunks <> [])
  /\ (readings chunks = [] ->
      percent (finish_bar (consume chunks initial_progress)) = Fin 0
      /\ progressStarted (finish_bar (consume chunks initial_progress)) = false).
Proof.
  assert (H : forall st,
            percent (consume chunks st) = default (percent st) (last (readings chunks))
            /\ progressStarted (consume chunks st)
               = progressStarted st || bool_decide (readings chunks <> [])).
  { induction chunks as [|chunk chunks IH]; intros st'.
    - cbn. now rewrite orb_false_r.
    - rewrite consume_cons, readings_cons.
      destruct (IH (on_data chunk st')) as [Hp Hs]. rewrite Hp, Hs.
      rewrite on_data_percent, on_data_started.
      destruct (percent_reading chunk.2) as [x|]; cbn [bool_decide].
      + rewrite last_cons. split.
        * now destruct (last (readings chunks)).
        * rewrite (bool_decide_eq_true_2 (is_Some (Some x))) by eauto.
          rewrite (bool_decide_eq_true_2 (x :: readings chunks <> [])) by discriminate.
          now rewrite !orb_true_r.
      + split; [reflexivity|].
        rewrite (bool_decide_eq_false_2 (is_Some None)) by (intros [? ?]; discriminate).
        now rewrite orb_false_r. }
  split; [apply H|]. split; [apply H|].
  intros Hnone. destruct (H initial_progress) as [Hp Hs].
  rewrite Hnone in Hp, Hs. cbn in Hp, Hs.
  unfold finish_bar. rewrite Hs. now rewrite Hp, Hs.
Qed.

Lemma consume_shows_last_reading_witness :
  readings [(Stdout, js "[youtube] abc123: Downloading webpage");
            (Stderr, js "[Merger] Merging formats")] = []
  /\ percent (finish_bar (consume
        [(Stdout, js "[youtube] abc123: Downloading webpage");
         (Stderr, js "[Merger] Merging formats")] initial_progress)) = Fin 0.
Proof.
  split; [vm_compute; reflexivity|].
  apply (proj2 (proj2 (consume_shows_last_reading _ initial_progress))).
  vm_compute. reflexivity.
Defined.

(** ** Temporary root *)

Section TempRoot.

Implicit Types fs : filesystem.

Lemma existsSync_dir fs p : is_Some (fs !! p) -> existsSync fs p = true.
Proof.
  intros H. unfold existsSync. now rewrite bool_decide_eq_true_2.
Qed.

Lemma cleanTempDir_root cfg fs : is_Some (cleanTempDir cfg fs !! tempDir cfg).
Proof. apply ensureDir_exists. Qed.

Lemma cleanTempDir_outside cfg fs p :
  within (tempDir cfg) p = false -> cleanTempDir cfg fs !! p = fs !! p.
Proof.
  intros H. unfold cleanTempDir.
  rewrite ensureDir_other by now apply within_neq.
  destruct (existsSync fs (tempDir cfg)); [now apply rmSync_outside | reflexivity].
Qed.

Lemma cleanTempDir_empties cfg fs :
  is_Some (fs !! tempDir cfg) ->
  cleanTempDir cfg fs !! tempDir cfg = Some ∅
  /\ (forall p, within (tempDir cfg) p = true -> p <> tempDir cfg ->
                cleanTempDir cfg fs !! p = None).
Proof.
  intros H. unfold cleanTempDir. rewrite (existsSync_dir _ _ H).
  unfold ensureDir. rewrite rmSync_inside by apply within_refl.
  split; [apply lookup_insert_eq|].
  intros p Hp Hne. rewrite lookup_insert_ne by congruence.
  now apply rmSync_inside.
Qed.

End TempRoot.

(** X8. [cleanTempDir] always leaves the temporary root in existence and
    touches nothing outside it. When the root existed it is left empty
    with no directory below it, and so it is after any second call in a
    row: cleaning twice is cleaning once. *)
Theorem cleanTempDir_resets (cfg : Config) (fs : filesystem) :
  is_Some (cleanTempDir cfg fs !! tempDir cfg)
  /\ (forall p, within (tempDir cfg) p = false ->
                cleanTempDir cfg fs !! p = fs !! p)
  /\ (is_Some (fs !! tempDir cfg) ->
      cleanTempDir cfg fs !! tempDir cfg = Some ∅
      /\ forall p, within (tempDir cfg) p = true -> p <> tempDir cfg ->
                   cleanTempDir cfg fs !! p = None)
  /\ (is_Some (fs !! tempDir cfg) ->
      cleanTempDir cfg (cleanTempDir cfg fs) = cleanTempDir cfg fs).
Proof.
  split; [apply cleanTempDir_root|].
  split; [apply cleanTempDir_outside|].
  split; [apply cleanTempDir_empties|].
  intros H. apply map_eq. intros p.
  destruct (within (tempDir cfg) p) eqn:Hw.
  - destruct (cleanTempDir_empties cfg fs H) as [H1 H2].
    destruct (cleanTempDir_empties cfg (cleanTempDir cfg fs)
                (cleanTempDir_root cfg fs)) as [H3 H4].
    destruct (decide (p = tempDir cfg)) as [->|Hne].
    + now rewrite H1, H3.
    + now rewrite H2, H4.
  - now rewrite !cleanTempDir_outside.
Qed.

Lemma cleanTempDir_resets_witness :
  cleanTempDir sample_config
    {[ js "/tmp/yt-downloader-temp" := {[ js "stray.part" := js "x" ]};
       js "/tmp/yt-downloader-temp/abc123" := {[ js "clip.mp4" := js "y" ]} ]}
  !! js "/tmp/yt-downloader-temp/abc123" = None.
Proof.
  apply (proj1 (proj2 (proj2 (cleanTempDir_resets sample_config _)))).
  - vm_compute. eauto.
  - vm_compute. reflexivity.
  - discriminate.
Defined.

(** ** Single downloads, continued *)

Section Promotion.

Context {World : Type}.
Variable spawn : list jsstring -> World -> ProcRun * World.
Variable clock : World -> N.

Implicit Types sys : Sys World.

Lemma before_spawn_other (cfg : Config) (now : N) (opts : DownloadOptions)
    (fs : filesystem) (p : path) :
  p <> downloadTempDir cfg now opts -> p <> output_dir cfg opts ->
  before_spawn cfg now opts fs !! p = fs !! p.
Proof.
  intros H1 H2. unfold before_spawn. now rewrite !ensureDir_other.
Qed.



(** The system a download leaves, in terms of the run of its subprocess,
    when the destination is outside the staging directory. *)
Lemma download_outside cfg url opts sys run w (p : path) :
  spawn (download_args cfg
           (before_spawn cfg (clock (world sys)) opts (files sys))
           (clock (world sys)) url opts) (world sys) = (run, w) ->
  within (downloadTempDir cfg (clock (world sys)) opts) p = false ->
  p <> output_dir cfg opts ->
  files (downloadVideoWithProgress spawn clock cfg url opts sys).2 !! p
  = files sys !! p.
Proof.
  intros Hs Hw Hp.
  set (now := clock (world sys)) in *.
  set (tmp := downloadTempDir cfg now opts) in *.
  set (out := output_dir cfg opts) in *.
  set (closing := at_close cfg now opts (files sys) run).
  assert (Hclosing : closing !! p = files sys !! p).
  { unfold closing. rewrite at_close_outside by exact Hw.
    apply before_spawn_other; [now apply within_neq | exact Hp]. }
  rewrite (download_unfold _ _ _ _ _ _ _ _ Hs). cbv zeta.
  fold now tmp out closing.
  destruct (ending run) as [code|message]; cbn [snd files].
  - destruct (bool_decide (code = Some 0%Z)); cbn [snd files].
    + destruct (readdirSync tmp closing) as [names|] eqn:Hread; cbn [snd files];
        [|exact Hclosing].
      destruct (at_close_staging cfg now opts (files sys) run) as [staged Hstaged].
      assert (Hout : is_Some (closing !! out)).
      { destruct (decide (out = tmp)) as [->|Hne]; [eauto|].
        unfold closing, at_close. rewrite write_into_other by exact Hne.
        apply before_spawn_output. }
      assert (Hsrc : forall f, f ∈ target_files (format opts) names ->
                               is_Some (content_of closing tmp f)).
      { intros f Hf. apply target_files_elem in Hf.
        destruct (readdirSync_names _ _ _ _ Hread Hf) as (held & c & Hh & Hc).
        unfold content_of. rewrite Hh, Hc. eauto. }
      destruct (copy_targets_spec tmp out _ closing Hout Hsrc)
        as (fs3 & Hcopy & Hother & _).
      rewrite Hcopy. cbn [snd files].
      rewrite rmSync_outside by exact Hw. now rewrite Hother.
    + rewrite rmSync_outside by exact Hw. exact Hclosing.
  - rewrite rmSync_outside by exact Hw. exact Hclosing.
Qed.


End Promotion.



(** ** Playlist listing *)

Section ListingFacts.

Lemma field_or_nonempty field fallback :
  fallback <> [] -> field_or field fallback <> [].
Proof. intros H. unfold field_or. now apply or_else_nonempty. Qed.

Lemma playlist_fold items title author videos :
  exists title' author',
    fold_left playlist_step items (title, author, videos)
    = (title', author', videos ++ map entry_of_item (List.filter is_video items))
    /\ (title <> [] -> title' <> [])
    /\ (author <> [] -> author' <> []).
Proof.
  revert title author videos.
  induction items as [|item items IH]; intros title author videos.
  - exists title, author. cbn. now rewrite app_nil_r.
  - cbn [fold_left playlist_step List.filter]. unfold is_video.
    destruct (item_is_playlist item); cbn [negb andb].
    + destruct (IH (field_or (item_title item) title)
                   (field_or (item_uploader item)
                      (field_or (item_channel item) author)) videos)
        as (t & a & -> & Ht & Ha).
      exists t, a. split; [reflexivity|].
      split; intros H; [apply Ht | apply Ha]; repeat apply field_or_nonempty;
        exact H.
    + destruct (default [] (item_id item)) as [|c id] eqn:E.
      * apply IH.
      * destruct (IH title author (videos ++ [entry_of_item item]))
          as (t & a & -> & Ht & Ha).
        exists t, a. cbn [map]. now rewrite <- app_assoc.
Qed.

Lemma build_playlist_spec items :
  playlist_items (build_playlist items)
  = map entry_of_item (List.filter is_video items)
  /\ playlist_title (build_playlist items) <> []
  /\ playlist_author (build_playlist items) <> [].
Proof.
  unfold build_playlist.
  destruct (playlist_fold items (js "Playlist") (js "Unknown") [])
    as (t & a & -> & Ht & Ha).
  cbn [app playlist_items playlist_title playlist_author].
  split; [reflexivity|]. split; [|apply Ha; discriminate].
  destruct (map entry_of_item (List.filter is_video items)); [apply Ht; discriminate|].
  destruct items; [apply Ht; discriminate|].
  repeat apply field_or_nonempty. apply Ht. discriminate.
Qed.

Lemma is_video_entry item :
  is_video item = true ->
  entry_id (entry_of_item item) <> []
  /\ entry_url (entry_of_item item)
     = js "https://www.youtube.com/watch?v=" ++ entry_id (entry_of_item item)
  /\ entry_title (entry_of_item item) <> [].
Proof.
  unfold is_video, entry_of_item. cbn.
  intros H. apply andb_true_iff in H as [_ H].
  split; [|split; [reflexivity | apply field_or_nonempty; discriminate]].
  destruct (default [] (item_id item)); [discriminate | discriminate].
Qed.

End ListingFacts.

Section ListingRuns.

Context {World : Type}.
Variable spawn : list jsstring -> World -> ProcRun * World.
Variable JSON_parse_item : jsstring -> Item + jsstring.

Lemma parse_lines_length lines items :
  parse_lines JSON_parse_item lines = inl items -> length items = length lines.
Proof.
  revert items. induction lines as [|line lines IH]; intros items; cbn.
  - now intros [= <-].
  - destruct (JSON_parse_item line); [|discriminate].
    destruct (parse_lines JSON_parse_item lines); [|discriminate].
    intros [= <-]. cbn. f_equal. now apply IH.
Qed.

Lemma parse_lines_first_error before line after message :
  Forall (fun l => exists item, JSON_parse_item l = inl item) before ->
  JSON_parse_item line = inr message ->
  parse_lines JSON_parse_item (before ++ line :: after) = inr message.
Proof.
  induction 1 as [|l before [item Hl] Hb IH]; intros Hline; cbn.
  - now rewrite Hline.
  - now rewrite Hl, IH.
Qed.

Lemma getPlaylistInfo_unfold cfg url (sys : Sys World) run w :
  spawn (playlist_args cfg (files sys) url) (world sys) = (run, w) ->
  getPlaylistInfo spawn JSON_parse_item cfg url sys
  = (match ending run with
     | Closed code =>
         if bool_decide (code = Some 0%Z)
            && bool_decide (stream_text Stdout run <> [])
         then parse_playlist JSON_parse_item (stream_text Stdout run)
         else Rejected (or_else (stream_text Stderr run)
                                (js "Failed to fetch playlist info"))
     | LaunchError message => Rejected message
     end,
     {| world := w; files := files sys;
        spawned := spawned sys ++ [playlist_args cfg (files sys) url] |}).
Proof.
  intros H. unfold getPlaylistInfo, run_process. now rewrite H.
Qed.

Lemma getPlaylistInfo_system cfg url (sys : Sys World) :
  files (getPlaylistInfo spawn JSON_parse_item cfg url sys).2 = files sys
  /\ spawned (getPlaylistInfo spawn JSON_parse_item cfg url sys).2
     = spawned sys ++ [playlist_args cfg (files sys) url].
Proof.
  destruct (spawn (playlist_args cfg (files sys) url) (world sys)) as [run w] eqn:E.
  rewrite (getPlaylistInfo_unfold _ _ _ _ _ E). split; reflexivity.
Qed.

Lemma getPlaylistInfo_resolved cfg url (sys : Sys World) playlist sys' :
  getPlaylistInfo spawn JSON_parse_item cfg url sys = (Resolved playlist, sys') ->
  exists items lines,
    parse_lines JSON_parse_item lines = inl items
    /\ playlist = build_playlist items.
Proof.
  destruct (spawn (playlist_args cfg (files sys) url) (world sys)) as [run w] eqn:E.
  rewrite (getPlaylistInfo_unfold _ _ _ _ _ E).
  destruct (ending run) as [code|message]; [|discriminate].
  destruct (bool_decide (code = Some 0%Z) && bool_decide (stream_text Stdout run <> []));
    [|discriminate].
  unfold parse_playlist.
  destruct (parse_lines JSON_parse_item (split_on 10 (trim (stream_text Stdout run))))
    as [items|message] eqn:Ep; [|discriminate].
  intros [= <- <-]. eauto.
Qed.

End ListingRuns.

(** X10. The entries of a fetched playlist are the records of the
    listing that are not the playlist record and carry an identifier, in
    the order of the listing. Every entry has a non-empty identifier, the
    watch URL of that identifier and a non-empty title; there are never
    more entries than lines in the listing; and the playlist's own title
    and author are never empty. *)
Theorem parse_playlist_entries
    (JSON_parse_item : jsstring -> Item + jsstring) (output : jsstring)
    (items : list Item) :
  parse_lines JSON_parse_item (split_on 10 (trim output)) = inl items ->
  exists playlist,
    parse_playlist JSON_parse_item output = Resolved playlist
    /\ playlist_items playlist = map entry_of_item (List.filter is_video items)
    /\ Forall (fun entry =>
                 entry_id entry <> []
                 /\ entry_url entry
                    = js "https://www.youtube.com/watch?v=" ++ entry_id entry
                 /\ entry_title entry <> [])
              (playlist_items playlist)
    /\ (length (playlist_items playlist)
        <= length (split_on 10 (trim output)))%nat
    /\ playlist_title playlist <> []
    /\ playlist_author playlist <> [].
Proof.
  intros Hparse. exists (build_playlist items).
  unfold parse_playlist. rewrite Hparse.
  destruct (build_playlist_spec items) as (Hitems & Ht & Ha).
  split; [reflexivity|]. split; [exact Hitems|].
  split; [|split; [|split; assumption]].
  - rewrite Hitems. apply Forall_map, Forall_forall.
    intros item Hin. apply list_elem_of_In, filter_In in Hin as [_ Hv].
    now apply is_video_entry.
  - rewrite Hitems, length_map, <- (parse_lines_length _ _ _ Hparse).
    apply filter_length_le.
Qed.

(** X11. The listing is all or nothing and is never retried: when a line
    of the output does not parse, the fetch rejects with the parser's
    message for the first such line behind [Failed to parse playlist
    info: ], and no entry of the lines that did parse is kept (for a
    subprocess that exited with zero and printed something). Whatever
    happens, the extractor is spawned exactly once, with the URL as its
    last argument, and the file system is left as it was. *)
Theorem getPlaylistInfo_all_or_nothing {World : Type}
    (spawn : list jsstring -> World -> ProcRun * World)
    (JSON_parse_item : jsstring -> Item + jsstring)
    (cfg : Config) (url : jsstring) (sys : Sys World) :
  (forall before line after message,
     split_on 10 (trim (stream_text Stdout
        (spawn (playlist_args cfg (files sys) url) (world sys)).1))
     = before ++ line :: after ->
     Forall (fun l => exists item, JSON_parse_item l = inl item) before ->
     JSON_parse_item line = inr message ->
     ending (spawn (playlist_args cfg (files sys) url) (world sys)).1
     = Closed (Some 0%Z) ->
     stream_text Stdout
       (spawn (playlist_args cfg (files sys) url) (world sys)).1 <> [] ->
     (getPlaylistInfo spawn JSON_parse_item cfg url sys).1
     = Rejected (js "Failed to parse playlist info: " ++ message))
  /\ files (getPlaylistInfo spawn JSON_parse_item cfg url sys).2 = files sys
  /\ (exists args,
        spawned (getPlaylistInfo spawn JSON_parse_item cfg url sys).2
        = spawned sys ++ [args]
        /\ last args = Some url).
Proof.
  destruct (getPlaylistInfo_system spawn JSON_parse_item cfg url sys) as [Hf Hs].
  split; [|split; [exact Hf|]].
  - destruct (spawn (playlist_args cfg (files sys) url) (world sys)) as [run w] eqn:E.
    cbn [fst]. intros before line after message Hsplit Hbefore Hline Hend Hout.
    rewrite (getPlaylistInfo_unfold _ _ _ _ _ _ _ E), Hend. cbn [fst].
    rewrite bool_decide_eq_true_2 by reflexivity.
    rewrite bool_decide_eq_true_2 by exact Hout. cbn [andb].
    unfold parse_playlist.
    now rewrite Hsplit, (parse_lines_first_error _ _ _ _ _ Hbefore Hline).
  - exists (playlist_args cfg (files sys) url). split; [exact Hs|].
    unfold playlist_args. now rewrite !app_assoc, last_snoc.
Qed.

Lemma parse_playlist_entries_witness :
  exists playlist,
    parse_playlist sample_parse_item sample_listing = Resolved playlist
    /\ map entry_id (playlist_items playlist) = [js "a1"; js "b2"].
Proof.
  destruct (parse_playlist_entries sample_parse_item sample_listing _ eq_refl)
    as (playlist & Hp & Hitems & _).
  exists playlist. split; [exact Hp|]. rewrite Hitems. vm_compute. reflexivity.
Defined.

Lemma getPlaylistInfo_all_or_nothing_witness :
  (getPlaylistInfo scripted_spawn sample_parse_item sample_config sample_url
     (start_of [listing_run broken_listing] ∅)).1
  = Rejected (js "Failed to parse playlist info: Unexpected token in JSON at position 0").
Proof.
  apply (proj1 (getPlaylistInfo_all_or_nothing scripted_spawn sample_parse_item
                  sample_config sample_url
                  (start_of [listing_run broken_listing] ∅))
           [js "{a1}"] (js "oops") [js "{c3}"]).
  - vm_compute. reflexivity.
  - repeat econstructor.
  - vm_compute. reflexivity.
  - vm_compute. reflexivity.
  - vm_compute. discriminate.
Defined.

(** ** Single videos *)

Section VideoRuns.

Context {World Info : Type}.
Variable spawn : list jsstring -> World -> ProcRun * World.
Variable clock : World -> N.
Variable JSON_parse : jsstring -> option Info.
Variable info_id : Info -> option jsstring.

Implicit Types sys : Sys World.

Lemma fetch_attempt_files args sys :
  files (fetch_attempt spawn JSON_parse args sys).2 = files sys.
Proof.
  destruct (spawn args (world sys)) as [run w] eqn:E.
  now rewrite (fetch_attempt_unfold _ _ _ _ _ _ E).
Qed.

Lemma attempt_in_turn_trace args later sys :
  files (attempt_in_turn spawn JSON_parse args later sys).2 = files sys
  /\ exists k,
       (1 <= k <= S (length later))%nat
       /\ spawned (attempt_in_turn spawn JSON_parse args later sys).2
          = spawned sys ++ take k (args :: later).
Proof.
  revert args sys. induction later as [|next later IH]; intros args sys;
    cbn [attempt_in_turn];
    pose proof (fetch_attempt_spawned spawn JSON_parse args sys) as Hsp;
    pose proof (fetch_attempt_files args sys) as Hf;
    destruct (fetch_attempt spawn JSON_parse args sys) as [[info|err] sys1];
    cbn [snd] in *.
  - split; [exact Hf|]. exists 1%nat. split; [cbn; lia | exact Hsp].
  - split; [exact Hf|]. exists 1%nat. split; [cbn; lia | exact Hsp].
  - split; [exact Hf|]. exists 1%nat. split; [cbn; lia | exact Hsp].
  - destruct (IH next sys1) as (Hf' & k & Hk & Hspk).
    split; [congruence|]. exists (S k). split; [cbn [length]; lia|].
    rewrite Hspk, Hsp, <- app_assoc. reflexivity.
Qed.

Lemma getVideoInfo_trace cfg url sys :
  files (getVideoInfo spawn JSON_parse cfg url sys).2 = files sys
  /\ exists new,
       spawned (getVideoInfo spawn JSON_parse cfg url sys).2 = spawned sys ++ new
       /\ (1 <= length new <= 2)%nat
       /\ Forall (fun args => last args = Some url) new.
Proof.
  unfold getVideoInfo, video_info_attempts.
  set (baseArgs := [js "--dump-json"; js "--no-playlist"] ++ cookie_args cfg (files sys)).
  destruct (attempt_in_turn_trace (baseArgs ++ [url])
              [baseArgs ++ [js "--extractor-args"; js "youtube:player_client=tv"; url]]
              sys) as (Hf & k & Hk & Hsp).
  split; [exact Hf|]. eexists. split; [exact Hsp|].
  cbn [length] in Hk. split.
  - rewrite length_take. cbn [length]. lia.
  - apply Forall_take. constructor; [now rewrite last_snoc|].
    constructor; [|constructor].
    change [js "--extractor-args"; js "youtube:player_client=tv"; url]
      with ([js "--extractor-args"; js "youtube:player_client=tv"] ++ [url]).
    now rewrite app_assoc, last_snoc.
Qed.

End VideoRuns.

(** X12. [downloadVideo] fetches the metadata before anything else: when
    that fails, it rejects with the same message without spawning a
    download and without touching the file system. In every case it
    spawns between one and three subprocesses, each with the URL as its
    last argument. *)
Theorem downloadVideo_metadata_first {World Info : Type}
    (spawn : list jsstring -> World -> ProcRun * World) (clock : World -> N)
    (JSON_parse : jsstring -> option Info) (info_id : Info -> option jsstring)
    (cfg : Config) (url : jsstring) (fmt : Format) (q : Quality)
    (sys : Sys World) :
  (forall message sys1,
     getVideoInfo spawn JSON_parse cfg url sys = (Rejected message, sys1) ->
     downloadVideo spawn clock JSON_parse info_id cfg url fmt q sys
     = (Rejected message, sys1)
     /\ files sys1 = files sys
     /\ (length (spawned sys1) <= length (spawned sys) + 2)%nat)
  /\ (exists new,
        spawned (downloadVideo spawn clock JSON_parse info_id cfg url fmt q sys).2
        = spawned sys ++ new
        /\ (1 <= length new <= 3)%nat
        /\ Forall (fun args => last args = Some url) new).
Proof.
  destruct (getVideoInfo_trace spawn JSON_parse cfg url sys)
    as (Hf & new & Hsp & Hlen & Hurl).
  unfold downloadVideo.
  destruct (getVideoInfo spawn JSON_parse cfg url sys) as [[info|message] sys1];
    cbn [snd] in *.
  - split; [intros ? ? [=]|].
    pose proof (download_spawns_once spawn clock cfg url
                  {| format := fmt; quality := q;
                     outputDir := Some (downloadDir cfg);
                     videoId := info_id info |} sys1) as Hd.
    destruct (downloadVideoWithProgress spawn clock cfg url _ sys1)
      as [[[dir|message] progress] sys2]; cbn [snd] in *;
      (eexists; split; [rewrite Hd, Hsp, <- app_assoc; reflexivity|];
       split; [rewrite length_app; cbn [length]; lia|];
       apply Forall_app; split; [exact Hurl|];
       constructor; [apply download_args_last | constructor]).
  - split.
    + intros m s1 [= <- <-]. split; [reflexivity|]. split; [exact Hf|].
      rewrite Hsp, length_app. lia.
    + exists new. split; [exact Hsp|]. split; [lia | exact Hurl].
Qed.

Lemma downloadVideo_metadata_first_witness :
  downloadVideo scripted_spawn scripted_clock Some (fun _ => None)
    sample_config sample_url Both Highest
    (start_of [silent_exit 1; silent_exit 1; sample_run] ∅)
  = (Rejected (js "Failed to fetch video info"),
     (getVideoInfo scripted_spawn Some sample_config sample_url
        (start_of [silent_exit 1; silent_exit 1; sample_run] ∅)).2).
Proof.
  apply (proj1 (downloadVideo_metadata_first scripted_spawn scripted_clock
                  Some (fun _ => None) sample_config sample_url Both Highest
                  (start_of [silent_exit 1; silent_exit 1; sample_run] ∅))).
  vm_compute. reflexivity.
Defined.

(** ** Playlists and the command line *)

Section Persistence.

Context {World : Type}.
Variable spawn : list jsstring -> World -> ProcRun * World.
Variable clock : World -> N.

Implicit Types sys : Sys World.

Lemma starts_with_length p s :
  starts_with p s = true -> (length p <= length s)%nat.
Proof.
  unfold starts_with. revert s. induction p as [|a p IH]; intros s; cbn; [lia|].
  destruct s as [|b s]; [discriminate|].
  intros H. apply andb_true_iff in H as [_ H]. apply IH in H. cbn. lia.
Qed.

Lemma within_child (dir name : path) : within (path_join dir name) dir = false.
Proof.
  unfold within, path_join. apply orb_false_iff. split.
  - apply bool_decide_eq_false_2. intros H.
    apply (f_equal length) in H. rewrite length_app in H. cbn in H. lia.
  - destruct (starts_with ((dir ++ 47 :: name) ++ [47]) dir) eqn:E; [|reflexivity].
    apply starts_with_length in E. rewrite !length_app in E. cbn in E. lia.
Qed.

Lemma download_keeps_dir cfg url opts sys (p : path) :
  within (downloadTempDir cfg (clock (world sys)) opts) p = false ->
  is_Some (files sys !! p) ->
  is_Some (files (downloadVideoWithProgress spawn clock cfg url opts sys).2 !! p).
Proof.
  intros Hw Hp.
  destruct (spawn (download_args cfg
                     (before_spawn cfg (clock (world sys)) opts (files sys))
                     (clock (world sys)) url opts) (world sys)) as [run w] eqn:Hs.
  destruct (decide (p = output_dir cfg opts)) as [->|Hne];
    [|now rewrite (download_outside spawn clock _ _ _ _ run w)].
  set (now := clock (world sys)) in *.
  set (tmp := downloadTempDir cfg now opts) in *.
  set (out := output_dir cfg opts) in *.
  set (closing := at_close cfg now opts (files sys) run).
  assert (Hout : is_Some (closing !! out)).
  { unfold closing. rewrite at_close_outside by exact Hw.
    apply before_spawn_output. }
  rewrite (download_unfold _ _ _ _ _ _ _ _ Hs). cbv zeta.
  fold now tmp out closing.
  destruct (ending run) as [code|message]; cbn [snd files].
  - destruct (bool_decide (code = Some 0%Z)); cbn [snd files].
    + destruct (readdirSync tmp closing) as [names|] eqn:Hread; cbn [snd files];
        [|exact Hout].
      assert (Hsrc : forall f, f ∈ target_files (format opts) names ->
                               is_Some (content_of closing tmp f)).
      { intros f Hf. apply target_files_elem in Hf.
        destruct (readdirSync_names _ _ _ _ Hread Hf) as (held & c & Hh & Hc).
        unfold content_of. rewrite Hh, Hc. eauto. }
      destruct (copy_targets_spec tmp out _ closing Hout Hsrc)
        as (fs3 & Hcopy & _ & Hto & _).
      rewrite Hcopy. cbn [snd files]. now rewrite rmSync_outside.
    + now rewrite rmSync_outside.
  - now rewrite rmSync_outside.
Qed.

Lemma download_each_keeps_root cfg fmt q folder selected ok ko sys :
  is_Some (files sys !! tempDir cfg) ->
  is_Some (files (download_each spawn clock cfg fmt q folder selected ok ko sys).2
           !! tempDir cfg).
Proof.
  revert ok ko sys. induction selected as [|video rest IH]; intros ok ko sys H;
    [exact H|].
  cbn [download_each].
  pose proof (download_keeps_dir cfg (entry_url video)
                {| format := fmt; quality := q; outputDir := Some folder;
                   videoId := Some (entry_id video) |} sys (tempDir cfg)
                (within_child _ _) H) as Hk.
  unfold download_entry.
  destruct (downloadVideoWithProgress spawn clock cfg (entry_url video) _ sys)
    as [[[dir|message] progress] sys1]; cbn [snd] in Hk; now apply IH.
Qed.

Lemma download_selected_keeps_root cfg title fmt q selected sys :
  is_Some (files sys !! tempDir cfg) ->
  is_Some (files (download_selected spawn clock cfg title fmt q selected sys).2
           !! tempDir cfg).
Proof.
  intros H. unfold download_selected.
  pose proof (download_each_keeps_root cfg fmt q (playlist_folder cfg title)
                selected 0 0 (with_folder cfg title sys)) as Hk.
  destruct (download_each _ _ _ _ _ _ selected 0%nat 0%nat _) as [[ok ko] sys'].
  cbn [snd] in *. apply Hk. cbn [with_folder files]. now apply ensureDir_keeps.
Qed.

End Persistence.

Lemma range_selection_elem {A} (rangeInput : jsstring) (items : list A) x :
  x ∈ range_selection rangeInput items -> x ∈ items.
Proof.
  unfold range_selection. destruct (includes rangeInput (js "-")).
  - unfold slice. intros Hx. now apply subseteq_take, subseteq_drop in Hx.
  - intros Hx. apply list_elem_of_omap in Hx as (i & _ & Hi).
    now apply index_elem in Hi.
Qed.

(** X13. [downloadPlaylist] spawns the listing first. When no batch is
    run (the listing failed, the user cancelled, selected nothing or
    declined), that spawn is the only one and the file system is as it
    was: no playlist folder is created. When a batch is run, the
    selection was not empty and was confirmed, the tally counts every
    selected entry once, its location is the playlist's folder, and
    after the listing exactly one download per selected entry is
    spawned, in order. With the whole playlist or a range text as the
    choice, every selected entry is an entry of the playlist. *)
Theorem downloadPlaylist_batch {World : Type}
    (spawn : list jsstring -> World -> ProcRun * World) (clock : World -> N)
    (JSON_parse_item : jsstring -> Item + jsstring)
    (cfg : Config) (url : jsstring) (fmt : Format) (q : Quality)
    (answers : Answers) (sys : Sys World) :
  let r := downloadPlaylist spawn clock JSON_parse_item cfg url fmt q answers sys in
  let listing := playlist_args cfg (files sys) url in
  (r.1 = None ->
   files r.2 = files sys /\ spawned r.2 = spawned sys ++ [listing])
  /\ (forall result, r.1 = Some result ->
        exists playlist selected,
          (getPlaylistInfo spawn JSON_parse_item cfg url sys).1 = Resolved playlist
          /\ selected_videos (selectOption answers) (playlist_items playlist)
             = Some selected
          /\ selected <> []
          /\ confirmDownload answers = true
          /\ (successful result + failed result = length selected)%nat
          /\ location result = playlist_folder cfg (playlist_title playlist)
          /\ exists new,
               spawned r.2 = spawned sys ++ listing :: new
               /\ map last new = map (fun video => Some (entry_url video)) selected)
  /\ (forall playlist selected,
        (getPlaylistInfo spawn JSON_parse_item cfg url sys).1 = Resolved playlist ->
        selected_videos (selectOption answers) (playlist_items playlist)
        = Some selected ->
        (forall chosen, selectOption answers <> SelectVideos chosen) ->
        forall video, video ∈ selected -> video ∈ playlist_items playlist).
Proof.
  cbv zeta.
  destruct (getPlaylistInfo_system spawn JSON_parse_item cfg url sys) as [Hf Hs].
  unfold downloadPlaylist.
  destruct (getPlaylistInfo spawn JSON_parse_item cfg url sys)
    as [[playlist|message] sys1]; cbn [fst snd] in *.
  2: { split; [auto|]. split; [intros ? [=] | intros ? ? [=]]. }
  split; [|split].
  - destruct (selected_videos (selectOption answers) (playlist_items playlist))
      as [[|v selected]|]; cbn [fst snd]; auto.
    destruct (confirmDownload answers); cbn [fst snd]; [|auto].
    destruct (download_selected _ _ _ _ _ _ _ _) as [result sys2].
    cbn [fst]. discriminate.
  - intros result.
    destruct (selected_videos (selectOption answers) (playlist_items playlist))
      as [[|v selected]|] eqn:Esel; cbn [fst snd]; try discriminate.
    destruct (confirmDownload answers) eqn:Ec; cbn [fst snd]; [|discriminate].
    unfold download_selected.
    pose proof (download_each_tally spawn clock cfg fmt q
                  (playlist_folder cfg (playlist_title playlist))
                  (v :: selected) 0 0
                  (with_folder cfg (playlist_title playlist) sys1)) as Ht.
    destruct (download_each _ _ _ _ _ _ (v :: selected) 0%nat 0%nat _)
      as [[ok ko] sys2].
    cbn [fst snd]. intros [= <-]. cbn [successful failed location].
    destruct Ht as (Hsum & new & Hnew & Hmap).
    exists playlist, (v :: selected).
    split; [reflexivity|]. split; [exact Esel|]. split; [discriminate|].
    split; [reflexivity|]. split; [exact Hsum|]. split; [reflexivity|].
    exists new. split; [|exact Hmap].
    rewrite Hnew. cbn [with_folder spawned]. rewrite Hs, <- app_assoc. reflexivity.
  - intros pl selected [= <-] Hsel Hchoice video Hv.
    destruct (selectOption answers) as [| |chosen|text]; cbn in Hsel.
    + discriminate.
    + now injection Hsel as <-.
    + now destruct (Hchoice chosen).
    + injection Hsel as <-. eapply range_selection_elem, Hv.
Qed.

Lemma downloadPlaylist_batch_witness :
  let r := downloadPlaylist scripted_spawn scripted_clock sample_parse_item
             sample_config sample_url Both Highest
             {| selectOption := RangeText (js "7-9"); confirmDownload := true |}
             (start_of [listing_run sample_listing; sample_run] ∅) in
  r.1 = None /\ files r.2 = ∅ /\ length (spawned r.2) = 1%nat.
Proof.
  cbv zeta.
  destruct (proj1 (downloadPlaylist_batch scripted_spawn scripted_clock
                     sample_parse_item sample_config sample_url Both Highest
                     {| selectOption := RangeText (js "7-9"); confirmDownload := true |}
                     (start_of [listing_run sample_listing; sample_run] ∅)))
    as [Hf Hs]; [vm_compute; reflexivity|].
  split; [vm_compute; reflexivity|]. split; [exact Hf|]. now rewrite Hs.
Defined.

Section CommandLine.

Context {World Info : Type}.
Variable spawn : list jsstring -> World -> ProcRun * World.
Variable clock : World -> N.
Variable JSON_parse : jsstring -> option Info.
Variable JSON_parse_item : jsstring -> Item + jsstring.
Variable info_id : Info -> option jsstring.

Implicit Types sys : Sys World.

Lemma downloadVideo_keeps_root cfg url fmt q sys :
  is_Some (files sys !! tempDir cfg) ->
  is_Some (files (downloadVideo spawn clock JSON_parse info_id cfg url fmt q sys).2
           !! tempDir cfg).
Proof.
  intros H. unfold downloadVideo.
  destruct (getVideoInfo_trace spawn JSON_parse cfg url sys) as [Hf _].
  destruct (getVideoInfo spawn JSON_parse cfg url sys) as [[info|message] sys1];
    cbn [snd] in *; [|now rewrite Hf].
  rewrite <- Hf in H.
  pose proof (download_keeps_dir spawn clock cfg url
                {| format := fmt; quality := q;
                   outputDir := Some (downloadDir cfg);
                   videoId := info_id info |} sys1 (tempDir cfg)
                (within_child _ _) H) as Hk.
  destruct (downloadVideoWithProgress spawn clock cfg url _ sys1)
    as [[[dir|message] progress] sys2]; exact Hk.
Qed.

Lemma downloadPlaylist_keeps_root cfg url fmt q answers sys :
  is_Some (files sys !! tempDir cfg) ->
  is_Some (files (downloadPlaylist spawn clock JSON_parse_item cfg url fmt q
                    answers sys).2 !! tempDir cfg).
Proof.
  intros H. unfold downloadPlaylist.
  destruct (getPlaylistInfo_system spawn JSON_parse_item cfg url sys) as [Hf _].
  destruct (getPlaylistInfo spawn JSON_parse_item cfg url sys)
    as [[playlist|message] sys1]; cbn [snd] in *; [|now rewrite Hf].
  rewrite <- Hf in H.
  destruct (selected_videos (selectOption answers) (playlist_items playlist))
    as [[|v selected]|]; cbn [snd]; try exact H.
  destruct (confirmDownload answers); cbn [snd]; [|exact H].
  pose proof (download_selected_keeps_root spawn clock cfg (playlist_title playlist)
                fmt q (v :: selected) sys1 H) as Hk.
  destruct (download_selected _ _ _ _ _ _ _ _) as [result sys2]. exact Hk.
Qed.

End CommandLine.

(** X14. The command-line mode rejects a URL that names neither
    youtube.com nor youtu.be with exit code 1 before it touches anything:
    no subprocess, no change to the file system. Every exit code it ends
    with is 1. And whenever it returns normally, the temporary root
    exists, is empty and has no directory below it. *)
Theorem handleArgs_outcomes {World Info : Type}
    (spawn : list jsstring -> World -> ProcRun * World) (clock : World -> N)
    (JSON_parse : jsstring -> option Info)
    (JSON_parse_item : jsstring -> Item + jsstring)
    (info_id : Info -> option jsstring)
    (cfg : Config) (args : list jsstring) (answers : Answers) (sys : Sys World) :
  let r := handleArgs spawn clock JSON_parse JSON_parse_item info_id
                      cfg args answers sys in
  (forall url rest, args = url :: rest -> is_youtube_url url = false ->
                    r = (ExitCode 1, sys))
  /\ (forall code, r.1 = ExitCode code -> code = 1%Z)
  /\ (r.1 = Completed ->
      files r.2 !! tempDir cfg = Some ∅
      /\ forall p, within (tempDir cfg) p = true -> p <> tempDir cfg ->
                   files r.2 !! p = None).
Proof.
  cbv zeta. unfold handleArgs.
  destruct args as [|url rest].
  { split; [intros ? ? [=]|]. split; [intros ? [=] | intros [=]]. }
  destruct (is_youtube_url url) eqn:Eurl; cbn [negb].
  2: { split; [intros ? ? _ _; reflexivity|].
       split; [now intros ? [= <-] | intros [=]]. }
  split; [intros u r' [= <- <-] H; congruence|].
  assert (Hroot : is_Some (files (cleaned cfg sys) !! tempDir cfg))
    by apply cleanTempDir_root.
  destruct (includes url (js "list=")).
  - pose proof (downloadPlaylist_keeps_root spawn clock JSON_parse_item cfg url
                  (cli_format (url :: rest)) Highest answers (cleaned cfg sys) Hroot)
      as Hk.
    destruct (downloadPlaylist _ _ _ _ _ _ _ _ _) as [result sys2].
    cbn [fst snd] in *. split; [intros ? [=]|]. intros _.
    now apply cleanTempDir_empties.
  - pose proof (downloadVideo_keeps_root spawn clock JSON_parse info_id cfg url
                  (cli_format (url :: rest)) Highest (cleaned cfg sys) Hroot) as Hk.
    destruct (downloadVideo _ _ _ _ _ _ _ _ _) as [[[]|message] sys2];
      cbn [fst snd] in *.
    + split; [intros ? [=]|]. intros _. now apply cleanTempDir_empties.
    + split; [now intros ? [= <-] | intros [=]].
Qed.

Lemma handleArgs_outcomes_witness :
  handleArgs scripted_spawn scripted_clock Some sample_parse_item (fun _ => None)
    sample_config [js "https://example.com/watch?v=abc"; js "--audio"]
    {| selectOption := AllVideos; confirmDownload := true |}
    (start_of [sample_run] ∅)
  = (ExitCode 1, start_of [sample_run] ∅).
Proof.
  apply (proj1 (handleArgs_outcomes scripted_spawn scripted_clock Some
                  sample_parse_item (fun _ => None) sample_config
                  [js "https://example.com/watch?v=abc"; js "--audio"]
                  {| selectOption := AllVideos; confirmDownload := true |}
                  (start_of [sample_run] ∅))
           _ _ eq_refl).
  vm_compute. reflexivity.
Defined.

(** ** Format choice of the first iteration *)

Section Sorting.

Context {A : Type} (key : A -> Z).

Local Abbreviation descending := (fun a b : A => (key b - key a)%Z).

Lemma insert_by_perm x l : insert_by descending x l ≡ₚ x :: l.
Proof.
  induction l as [|y l IH]; cbn; [reflexivity|].
  destruct (descending x y <=? 0)%Z; [reflexivity|].
  rewrite IH. apply Permutation_swap.
Qed.

Lemma sort_by_perm l : sort_by descending l ≡ₚ l.
Proof.
  induction l as [|x l IH]; cbn; [reflexivity|].
  unfold sort_by in IH. now rewrite insert_by_perm, IH.
Qed.

Lemma insert_by_sorted x l :
  StronglySorted (fun a b => (key b <= key a)%Z) l ->
  StronglySorted (fun a b => (key b <= key a)%Z) (insert_by descending x l).
Proof.
  induction 1 as [|y l Hs IH Hy]; cbn.
  - constructor; constructor.
  - destruct (key y - key x <=? 0)%Z eqn:E.
    + apply Z.leb_le in E. constructor; [now constructor|].
      constructor; [lia|]. eapply Forall_impl; [exact Hy|]. cbn. intros; lia.
    + apply Z.leb_gt in E. constructor; [exact IH|].
      rewrite insert_by_perm. constructor; [lia | exact Hy].
Qed.

Lemma sort_by_sorted l :
  StronglySorted (fun a b => (key b <= key a)%Z) (sort_by descending l).
Proof.
  induction l as [|x l IH]; cbn; [constructor|]. now apply insert_by_sorted.
Qed.

End Sorting.

Lemma height_key_value (f : MediaFormat) :
  height_key f = Z.of_N (default 0 (height f)).
Proof.
  unfold height_key. destruct (height f) as [h|]; [|reflexivity].
  rewrite parseInt_digits
    by (apply N_toString_digits || apply N_toString_nonempty).
  now rewrite N_toString_value.
Qed.

(** X15. [getAvailableFormats] returns exactly the formats of the wanted
    kind, each as often as it is listed, ordered from the greatest
    bitrate (audio) or height (video, both) down, where a missing value
    counts as 0. So the format the download takes by default, the first
    one, is a format of the wanted kind that no other one exceeds; and
    the list is empty exactly when no format is of the wanted kind. *)
Theorem getAvailableFormats_best_first (formats : list MediaFormat)
    (type : Format) :
  getAvailableFormats formats type ≡ₚ List.filter (format_matches type) formats
  /\ StronglySorted (fun a b => (format_key type b <= format_key type a)%Z)
                    (getAvailableFormats formats type)
  /\ (forall best rest,
        getAvailableFormats formats type = best :: rest ->
        format_matches type best = true
        /\ best ∈ formats
        /\ forall f, f ∈ formats -> format_matches type f = true ->
                     (format_key type f <= format_key type best)%Z)
  /\ (getAvailableFormats formats type = [] <->
      forall f, f ∈ formats -> format_matches type f = false)
  /\ (forall f, height_key f = Z.of_N (default 0 (height f))).
Proof.
  pose proof (sort_by_perm (format_key type)
                (List.filter (format_matches type) formats)) as Hperm.
  pose proof (sort_by_sorted (format_key type)
                (List.filter (format_matches type) formats)) as Hsorted.
  fold (getAvailableFormats formats type) in Hperm, Hsorted.
  split; [exact Hperm|]. split; [exact Hsorted|].
  split; [|split; [|exact height_key_value]].
  - intros best rest Heq. rewrite Heq in Hperm, Hsorted.
    assert (Hin : forall f, f ∈ best :: rest <->
                            f ∈ formats /\ format_matches type f = true).
    { intros f. rewrite Hperm, !list_elem_of_In, filter_In. tauto. }
    destruct (proj1 (Hin best) ltac:(left)) as [Hb1 Hb2].
    split; [exact Hb2|]. split; [exact Hb1|].
    intros f Hf Hm. apply StronglySorted_inv in Hsorted as [_ Hall].
    pose proof (proj2 (Hin f) (conj Hf Hm)) as Hmem.
    apply elem_of_cons in Hmem as [->|Hr]; [lia|].
    rewrite Forall_forall in Hall. now apply Hall.
  - split.
    + intros Hnil f Hf. rewrite Hnil in Hperm.
      destruct (format_matches type f) eqn:E; [|reflexivity].
      assert (Hin : In f (List.filter (format_matches type) formats))
        by (apply filter_In; split; [now apply list_elem_of_In | exact E]).
      apply list_elem_of_In in Hin. rewrite <- Hperm in Hin. inversion Hin.
    + intros Hnone.
      assert (Hf : List.filter (format_matches type) formats = []).
      { clear Hperm Hsorted. induction formats as [|f l IH]; [reflexivity|].
        cbn. assert (Hm : format_matches type f = false) by (apply Hnone; left).
        rewrite Hm. apply IH. intros g Hg. apply Hnone. now right. }
      unfold getAvailableFormats. now rewrite Hf.
Qed.

Lemma getAvailableFormats_best_first_witness :
  format_matches Both
    {| hasAudio := true; hasVideo := true; audioBitrate := None; height := Some 1080 |}
  = true.
Proof.
  apply (proj1 (proj2 (proj2 (getAvailableFormats_best_first sample_formats Both)))
           {| hasAudio := true; hasVideo := true;
              audioBitrate := None; height := Some 1080 |}
           [{| hasAudio := true; hasVideo := true;
               audioBitrate := Some 128; height := Some 360 |}]).
  vm_compute. reflexivity.
Defined.

(** ** What a download may change in its destination *)




Section Destination.

Context {World : Type}.
Variable spawn : list jsstring -> World -> ProcRun * World.
Variable clock : World -> N.

Implicit Types sys : Sys World.


End Destination.



Section BatchFolder.

Context {World : Type}.
Variable spawn : list jsstring -> World -> ProcRun * World.
Variable clock : World -> N.

Implicit Types sys : Sys World.


End BatchFolder.



(** ** The plain download *)

Lemma downloadVideoSimple_unfold {World : Type}
    (spawn : list jsstring -> World -> ProcRun * World)
    (cfg : Config) (url : jsstring) (fmt : Format) (q : Quality)
    (target : path) (sys : Sys World) (run : ProcRun) (w : World) :
  target <> [] ->
  spawn (download_args_simple target url fmt q) (world sys) = (run, w) ->
  downloadVideoSimple spawn cfg url fmt q (Some target) sys
  = (match ending run with
     | Closed code =>
         if bool_decide (code = Some 0%Z) then Resolved target
         else Rejected (failure_message (stream_text Stderr run) code)
     | LaunchError message => Rejected message
     end,
     {| world := w;
        files := write_into target (written run) (ensureDir target (files sys));
        spawned := spawned sys ++ [download_args_simple target url fmt q] |}).
Proof.
  intros Hne Hs.
  assert (Ht : or_else target (downloadDir cfg) = target)
    by (destruct target; [contradiction | reflexivity]).
  unfold downloadVideoSimple. cbv zeta. cbn [default option_rect].
  unfold id. rewrite Ht.
  unfold run_process. cbn [world files spawned]. rewrite Hs.
  cbn [world files spawned].
  destruct (ending run) as [code|message]; [|reflexivity].
  now destruct (bool_decide (code = Some 0%Z)).
Qed.

(** X18. The plain download of the iteration without staging judges a
    run of the extractor exactly as the staged download does: for the
    same run, both resolve or both reject, and with the same message.
    What differs is what stays behind: the plain download leaves every
    file the extractor wrote in the target directory, also when it
    rejects. *)
Theorem plain_and_staged_agree {World : Type}
    (spawn : list jsstring -> World -> ProcRun * World) (clock : World -> N)
    (cfg : Config) (url : jsstring) (opts : DownloadOptions)
    (target : path) (plain staged : Sys World) (run : ProcRun) (w1 w2 : World) :
  target <> [] ->
  spawn (download_args_simple target url (format opts) (quality opts))
        (world plain) = (run, w1) ->
  spawn (download_args cfg
           (before_spawn cfg (clock (world staged)) opts (files staged))
           (clock (world staged)) url opts) (world staged) = (run, w2) ->
  let r1 := downloadVideoSimple spawn cfg url (format opts) (quality opts)
                                (Some target) plain in
  let r2 := downloadVideoWithProgress spawn clock cfg url opts staged in
  succeeded r1.1 = succeeded r2.1.1
  /\ (forall message, r1.1 = Rejected message <-> r2.1.1 = Rejected message)
  /\ (forall f contents,
        written run !! f = Some contents ->
        content_of (files r1.2) target f = Some contents).
Proof.
  intros Hne Hs1 Hs2. cbv zeta.
  rewrite (downloadVideoSimple_unfold _ _ _ _ _ _ _ _ _ Hne Hs1).
  rewrite (download_unfold _ _ _ _ _ _ _ _ Hs2). cbv zeta.
  cbn [fst snd files].
  split; [|split].
  - destruct (ending run) as [code|message]; [|reflexivity].
    destruct (bool_decide (code = Some 0%Z)); [|reflexivity].
    destruct (readdirSync _ _); [|reflexivity].
    now destruct (copy_targets _ _ _ _) as [fs3 []].
  - intros message. destruct (ending run) as [code|m]; [|reflexivity].
    destruct (bool_decide (code = Some 0%Z)).
    + destruct (readdirSync _ _);
        [destruct (copy_targets _ _ _ _) as [fs3 []]|]; cbn [fst];
        split; discriminate.
    + cbn [fst]. now rewrite errorOutput_of_run.
  - intros f contents Hf. unfold content_of. rewrite write_into_at.
    now apply lookup_union_Some_l.
Qed.

Lemma plain_and_staged_agree_witness :
  (downloadVideoSimple scripted_spawn sample_config sample_url Both Highest
     (Some (js "/home/user/downloads")) (start_of [sample_failure] ∅)).1
  = Rejected (js "Video unavailable")
  /\ content_of
       (files (downloadVideoSimple scripted_spawn sample_config sample_url
                 Both Highest (Some (js "/home/user/downloads"))
                 (start_of [sample_failure] ∅)).2)
       (js "/home/user/downloads") (js "clip.mp4.part")
     = Some (js "MPEG").
Proof.
  destruct (plain_and_staged_agree scripted_spawn scripted_clock sample_config
              sample_url sample_options (js "/home/user/downloads")
              (start_of [sample_failure] ∅) (start_of [sample_failure] ∅)
              sample_failure [] [] ltac:(discriminate) eq_refl eq_refl)
    as (_ & Hmsg & Hleft).
  split.
  - apply Hmsg. vm_compute. reflexivity.
  - apply Hleft. vm_compute. reflexivity.
Defined.
